(** * khorsyio: the in-process event bus

    A shallow embedding of [khorsyio/core/structs.py], [khorsyio/core/handler.py]
    and [khorsyio/core/bus.py], and the properties of the message model, the
    handler contract, the metrics, the event log and the dispatcher.

    Conventions of the embedding.
    - A Python [dict] is a [gmap]; a [deque] and a [list] are Rocq lists; the
      unbounded [asyncio.Queue] is a list, oldest first.
    - [asyncio.Future] objects live in a store indexed by their identity, so
      that the waiter table and the coroutine that awaits a future alias the
      same object.
    - A coroutine is cut at its suspension points: every piece between two
      [await]s that really suspend is one function on the bus state.
    - What the interpreter and the libraries provide (float arithmetic,
      msgspec's encoders) is the class [PyRuntime]; what the outer world
      provides at a call ([uuid.uuid4], [time.time]) is a [World] argument;
      the handler classes a worker process can load are the class
      [Modules]. *)

From Stdlib Require Import ZArith QArith Qround Strings.Byte.
From stdpp Require Import base option list strings pretty gmap.

Set Default Proof Using "Type".
Local Open Scope Z_scope.

(** ** The Python runtime *)

Class PyRuntime := {
  (** Python's [float] *)
  float : Type;
  f_zero : float;                          (* 0.0 *)
  f_thirty : float;                        (* 30.0 *)
  f_add : float → float → float;           (* x + y *)
  f_div_int : float → Z → float;           (* x / n, n a non-zero int *)
  f_round : float → Z → float;             (* round(x, ndigits) *)
  f_eqb : float → float → bool;            (* x == y *)
  f_ltb : float → float → bool;            (* x < y *)
  f_repr : float → string;                 (* the text of x in an f-string *)
  (** instances of [msgspec.Struct] subclasses *)
  Struct : Type;
  json_encode : Struct → list byte;        (* msgspec.json.encode *)
  empty_struct : Struct;                   (* msgspec.Struct() *)
  (** [str] of the [ValidationError] msgspec raises when it decodes nil as
      an [Envelope] *)
  msgpack_nil_error : string;
}.

(** Python exceptions, as far as the bus tells them apart: its handlers are
    [except asyncio.TimeoutError] and [except Exception].  The argument is
    [str(e)].  Only subclasses of [Exception] are modelled. *)
Inductive Exn :=
| TimeoutError (msg : string)
| ValueError (msg : string)
| AttributeError (msg : string)
| ZeroDivisionError (msg : string)
| OtherException (msg : string).

(** [str(e)] *)
Definition exn_str (e : Exn) : string :=
  match e with
  | TimeoutError m | ValueError m | AttributeError m
  | ZeroDivisionError m | OtherException m => m
  end.

Inductive Outcome (A : Type) :=
| Return (a : A)
| Raise (e : Exn).
Arguments Return {A} a.
Arguments Raise {A} e.

(** [x or y] on strings: the empty string is falsy. *)
Definition str_or (x y : string) : string :=
  if decide (x = "") then y else x.

(** [x or y] where [x] is [str | None]. *)
Definition opt_str_or (x : option string) (y : string) : string :=
  match x with
  | Some s => str_or s y
  | None => y
  end.

Section Khorsyio.
Context `{RT : PyRuntime}.

(** What a call takes from outside the program. *)
Record World := {
  uuid4_hex16 : string;      (* uuid.uuid4().hex[:16] *)
  time_time : float;         (* time.time() *)
}.

(** ** structs.py *)

Record Context := {
  ctx_trace_id : string;
  ctx_timestamp : float;
  ctx_source : string;
  ctx_user_id : string;
  ctx_extra : gmap string string;
}.

Record Error := {
  err_code : string;
  err_message : string;
  err_source : string;
  err_trace_id : string;
  err_details : gmap string string;
}.

Record Envelope := {
  ctx : Context;
  event_type : string;
  payload : list byte;
  error : option Error;
}.

(** [Envelope.trace_id] (property) *)
Definition trace_id (e : Envelope) : string := ctx_trace_id (ctx e).

(** [Envelope.is_error] (property) *)
Definition is_error (e : Envelope) : bool := bool_decide (error e ≠ None).

(** [Envelope.create]: [trace_id or uuid.uuid4().hex[:16]], [extra or {}];
    the timestamp is the [Context] default factory [time.time]. *)
Definition create (w : World) (event : string) (data : Struct)
    (source : string) (trace : option string) (user_id : string)
    (extra : option (gmap string string)) : Envelope :=
  {| ctx := {| ctx_trace_id := opt_str_or trace (uuid4_hex16 w);
               ctx_timestamp := time_time w;
               ctx_source := source;
               ctx_user_id := user_id;
               ctx_extra := default ∅ extra |};
     event_type := event;
     payload := json_encode data;
     error := None |}.

(** [Envelope.error_from] *)
Definition error_from (w : World) (original : Envelope) (message code source : string)
    (details : option (gmap string string)) : Envelope :=
  let err := {| err_code := code;
                err_message := message;
                err_source := source;
                err_trace_id := ctx_trace_id (ctx original);
                err_details := default ∅ details |} in
  {| ctx := {| ctx_trace_id := ctx_trace_id (ctx original);
               ctx_timestamp := time_time w;
               ctx_source := source;
               ctx_user_id := ctx_user_id (ctx original);
               ctx_extra := ∅ |};
     event_type := event_type original +:+ ".error";
     payload := payload original;
     error := Some err |}.

(** [Envelope.forward] *)
Definition forward (w : World) (self : Envelope) (event : string) (data : Struct)
    (source : string) : Envelope :=
  create w event data source (Some (ctx_trace_id (ctx self)))
         (ctx_user_id (ctx self)) (Some (ctx_extra (ctx self))).

(** ** handler.py *)

(** The values a handler's [process] takes and returns. *)
Inductive PyValue :=
| VNone
| VEnvelope (e : Envelope)
| VStruct (s : Struct)
| VOther.                    (* any other object: a dict, a str, ... *)

(** How an awaited coroutine ends: after [after] seconds with a value or an
    exception, or never. *)
Inductive Run (A : Type) :=
| Completes (after : float) (o : Outcome A)
| Never.
Arguments Completes {A} after o.
Arguments Never {A}.

(** An instance of a [Handler] subclass with its attributes, which are those
    of the class until [register] or [Domain.setup] set them.  [input_type]
    is the decoder [msgspec.json.decode(_, type=input_type)] of the declared
    type; [process] is the abstract method. *)
Record Handler := {
  class_name : string;                      (* self.__class__.__name__ *)
  subscribes_to : string;
  publishes : string;
  input_type : option (list byte → Outcome Struct);
  timeout : float;
  execution_mode : string;
  process : PyValue → Context → Run PyValue;
}.

(** The first lines of [Handler.handle]: the argument [process] is called
    with. *)
Definition handler_input (self : Handler) (envelope : Envelope) : Outcome PyValue :=
  match input_type self with
  | Some decode =>
      match decode (payload envelope) with
      | Return s => Return (VStruct s)
      | Raise e => Raise e
      end
  | None => Return (VEnvelope envelope)
  end.

(** What [handle] makes of the value [process] returned. *)
Definition handle_result (w : World) (self : Handler) (envelope : Envelope)
    (result : PyValue) : option Envelope :=
  match result with
  | VNone => None
  | VEnvelope r => Some r
  | VStruct s =>
      if decide (publishes self = "") then None
      else Some (forward w envelope (publishes self) s (class_name self))
  | VOther => None
  end.

(** [Handler.handle].  A failing decode raises before the first [await]. *)
Definition handle (w : World) (self : Handler) (envelope : Envelope)
    : Run (option Envelope) :=
  match handler_input self envelope with
  | Raise e => Completes f_zero (Raise e)
  | Return data =>
      match process self data (ctx envelope) with
      | Completes d (Return result) =>
          Completes d (Return (handle_result w self envelope result))
      | Completes d (Raise e) => Completes d (Raise e)
      | Never => Never
      end
  end.

(** ** bus.py: Metrics *)

Record Metrics := {
  processed : gmap string Z;          (* defaultdict(int) *)
  errors : gmap string Z;             (* defaultdict(int) *)
  total_ms : gmap string float;       (* defaultdict(float) *)
  last_error : gmap string string;
}.

Definition Metrics_init : Metrics :=
  {| processed := ∅; errors := ∅; total_ms := ∅; last_error := ∅ |}.

(** [Metrics.record]; [d[k] += x] on a [defaultdict] reads the default for a
    missing key. *)
Definition Metrics_record (handler_name : string) (duration_ms : float)
    (ok : bool) (error : string) (self : Metrics) : Metrics :=
  let processed' :=
    <[handler_name := default 0 (processed self !! handler_name) + 1]> (processed self) in
  let total_ms' :=
    <[handler_name := f_add (default f_zero (total_ms self !! handler_name)) duration_ms]>
      (total_ms self) in
  if ok then
    {| processed := processed'; errors := errors self;
       total_ms := total_ms'; last_error := last_error self |}
  else
    {| processed := processed';
       errors := <[handler_name := default 0 (errors self !! handler_name) + 1]> (errors self);
       total_ms := total_ms';
       last_error := <[handler_name := error]> (last_error self) |}.

(** A sequence of calls [record(handler_name, duration_ms, ok, error)]. *)
Definition Metrics_record_all (calls : list (string * float * bool * string))
    (self : Metrics) : Metrics :=
  foldl (λ m c, Metrics_record c.1.1.1 c.1.1.2 c.1.2 c.2 m) self calls.

(** The calls of a sequence that name [name]. *)
Definition calls_of (name : string) (calls : list (string * float * bool * string))
    : list (string * float * bool * string) :=
  filter (λ c, c.1.1.1 = name) calls.

(** The durations of a list of calls, added up in the order of the calls. *)
Definition cumulative (calls : list (string * float * bool * string)) : float :=
  foldl (λ acc c, f_add acc c.1.1.2) f_zero calls.

(** [x / n] for a float and an int. *)
Definition py_truediv (x : float) (n : Z) : Outcome float :=
  if decide (n = 0) then Raise (ZeroDivisionError "float division by zero")
  else Return (f_div_int x n).

(** [Metrics.avg_ms].  The count is read with [dict.get], which leaves the
    table alone; [self.total_ms[handler_name]] is a [defaultdict] read, which
    stores the default under a missing key, and is evaluated only when the
    count is truthy. *)
Definition avg_ms (handler_name : string) (self : Metrics) : Outcome float * Metrics :=
  let count := default 0 (processed self !! handler_name) in
  if decide (count = 0) then (Return f_zero, self)
  else
    let total := default f_zero (total_ms self !! handler_name) in
    let self' := {| processed := processed self; errors := errors self;
                    total_ms := <[handler_name := total]> (total_ms self);
                    last_error := last_error self |} in
    (match py_truediv total count with
     | Return q => Return (f_round q 2)
     | Raise e => Raise e
     end, self').

(** ** bus.py: EventLog *)

Record LogEntry := {
  le_ts : float;
  le_event_type : string;
  le_trace_id : string;
  le_source : string;
  le_handler : string;
  le_duration_ms : float;
  le_ok : bool;
  le_error : string;
}.

(** [collections.deque(maxlen=...)]: the bound and the items, oldest first. *)
Record EventLog := {
  maxlen : nat;
  _buffer : list LogEntry;
}.

(** [EventLog.__init__]; [deque] refuses a negative [maxlen]. *)
Definition EventLog_init (max_size : Z) : Outcome EventLog :=
  if decide (max_size < 0) then Raise (ValueError "maxlen must be non-negative")
  else Return {| maxlen := Z.to_nat max_size; _buffer := [] |}.

(** [deque.append] on a bounded deque: a full deque drops its leftmost item;
    a deque of bound zero stays empty. *)
Definition deque_append {A} (bound : nat) (x : A) (items : list A) : list A :=
  let items' := items ++ [x] in
  drop (length items' - bound)%nat items'.

(** The dict [EventLog.record] appends. *)
Definition log_entry (w : World) (envelope : Envelope) (handler_name : string)
    (duration_ms : float) (ok : bool) : LogEntry :=
  {| le_ts := time_time w;
     le_event_type := event_type envelope;
     le_trace_id := trace_id envelope;
     le_source := ctx_source (ctx envelope);
     le_handler := handler_name;
     le_duration_ms := duration_ms;
     le_ok := ok;
     le_error := match error envelope with
                 | Some err => err_message err
                 | None => ""
                 end |}.

(** [EventLog.record] *)
Definition EventLog_record (w : World) (envelope : Envelope) (handler_name : string)
    (duration_ms : float) (ok : bool) (self : EventLog) : EventLog :=
  {| maxlen := maxlen self;
     _buffer := deque_append (maxlen self)
                  (log_entry w envelope handler_name duration_ms ok) (_buffer self) |}.

(** The arguments of one call of [EventLog.record] and the clock at the call. *)
Record RecordCall := {
  rc_world : World;
  rc_envelope : Envelope;
  rc_handler : string;
  rc_duration_ms : float;
  rc_ok : bool;
}.

Definition entry_of (c : RecordCall) : LogEntry :=
  log_entry (rc_world c) (rc_envelope c) (rc_handler c) (rc_duration_ms c) (rc_ok c).

(** A sequence of calls of [EventLog.record]. *)
Definition EventLog_record_all (calls : list RecordCall) (self : EventLog) : EventLog :=
  foldl (λ log c, EventLog_record (rc_world c) (rc_envelope c) (rc_handler c)
                    (rc_duration_ms c) (rc_ok c) log) self calls.

(** The slice [items[k:]]: a negative [k] counts from the end, and both ends
    are clamped. *)
Definition slice_from {A} (k : Z) (items : list A) : list A :=
  let len := Z.of_nat (length items) in
  let start := if decide (k < 0) then Z.max 0 (k + len) else Z.min k len in
  drop (Z.to_nat start) items.

(** The filter of [recent]: [if key: items = [e for e in items if field == key]];
    [None] and the empty string are falsy. *)
Definition filter_by (field : LogEntry → string) (key : option string)
    (items : list LogEntry) : list LogEntry :=
  match key with
  | Some k => if decide (k = "") then items else filter (λ e, field e = k) items
  | None => items
  end.

(** [EventLog.recent] *)
Definition recent (n : Z) (event : option string) (trace : option string)
    (self : EventLog) : list LogEntry :=
  let items := _buffer self in
  let items := filter_by le_event_type event items in
  let items := filter_by le_trace_id trace items in
  slice_from (- n) items.

(** [EventLog.snapshot] *)
Definition EventLog_snapshot (self : EventLog) : list LogEntry := _buffer self.

(** ** bus.py: Bus *)

(** An [asyncio.Future] that carries an [Envelope]. *)
Inductive FutureState :=
| Pending
| Finished (result : Envelope)
| Cancelled.

(** [future.done()] *)
Definition done (f : FutureState) : bool :=
  match f with Pending => false | _ => true end.

(** An error callback: a callable the bus only calls; the call may raise. *)
Record Callback := {
  cb_id : nat;
  cb_call : Envelope → Outcome unit;
}.

(** The calls the bus makes into user code. *)
Inductive Effect :=
| HandlerInvoked (name : string) (e : Envelope)
| CallbackCalled (cb : nat) (e : Envelope).

(** The state of a [Bus].  [futures] is the store of the future objects the
    waiter table refers to and [effects] the calls made so far, oldest
    first; the other fields are the attributes of the class that the
    operations below read or write ([app], [_pool] and [_scheduled] are left
    out).  A queue of [None] is the attribute before [start]. *)
Record Bus := {
  _subs : gmap string (list Handler);          (* defaultdict(list) *)
  _queue : option (list Envelope);
  _running : bool;
  _draining : bool;
  _error_callbacks : list Callback;
  _default_timeout : float;
  _waiters : gmap string nat;
  metrics : Metrics;
  event_log : EventLog;
  futures : gmap nat FutureState;
  effects : list Effect;
}.

Definition with_subs (v : gmap string (list Handler)) (b : Bus) : Bus :=
  {| _subs := v; _queue := _queue b; _running := _running b; _draining := _draining b;
     _error_callbacks := _error_callbacks b; _default_timeout := _default_timeout b;
     _waiters := _waiters b; metrics := metrics b; event_log := event_log b;
     futures := futures b; effects := effects b |}.

Definition with_queue (v : option (list Envelope)) (b : Bus) : Bus :=
  {| _subs := _subs b; _queue := v; _running := _running b; _draining := _draining b;
     _error_callbacks := _error_callbacks b; _default_timeout := _default_timeout b;
     _waiters := _waiters b; metrics := metrics b; event_log := event_log b;
     futures := futures b; effects := effects b |}.

Definition with_flags (running draining : bool) (b : Bus) : Bus :=
  {| _subs := _subs b; _queue := _queue b; _running := running; _draining := draining;
     _error_callbacks := _error_callbacks b; _default_timeout := _default_timeout b;
     _waiters := _waiters b; metrics := metrics b; event_log := event_log b;
     futures := futures b; effects := effects b |}.

Definition with_error_callbacks (v : list Callback) (b : Bus) : Bus :=
  {| _subs := _subs b; _queue := _queue b; _running := _running b; _draining := _draining b;
     _error_callbacks := v; _default_timeout := _default_timeout b;
     _waiters := _waiters b; metrics := metrics b; event_log := event_log b;
     futures := futures b; effects := effects b |}.

Definition with_waiters (v : gmap string nat) (b : Bus) : Bus :=
  {| _subs := _subs b; _queue := _queue b; _running := _running b; _draining := _draining b;
     _error_callbacks := _error_callbacks b; _default_timeout := _default_timeout b;
     _waiters := v; metrics := metrics b; event_log := event_log b;
     futures := futures b; effects := effects b |}.

Definition with_metrics (v : Metrics) (b : Bus) : Bus :=
  {| _subs := _subs b; _queue := _queue b; _running := _running b; _draining := _draining b;
     _error_callbacks := _error_callbacks b; _default_timeout := _default_timeout b;
     _waiters := _waiters b; metrics := v; event_log := event_log b;
     futures := futures b; effects := effects b |}.

Definition with_event_log (v : EventLog) (b : Bus) : Bus :=
  {| _subs := _subs b; _queue := _queue b; _running := _running b; _draining := _draining b;
     _error_callbacks := _error_callbacks b; _default_timeout := _default_timeout b;
     _waiters := _waiters b; metrics := metrics b; event_log := v;
     futures := futures b; effects := effects b |}.

Definition with_futures (v : gmap nat FutureState) (b : Bus) : Bus :=
  {| _subs := _subs b; _queue := _queue b; _running := _running b; _draining := _draining b;
     _error_callbacks := _error_callbacks b; _default_timeout := _default_timeout b;
     _waiters := _waiters b; metrics := metrics b; event_log := event_log b;
     futures := v; effects := effects b |}.

Definition with_effects (v : list Effect) (b : Bus) : Bus :=
  {| _subs := _subs b; _queue := _queue b; _running := _running b; _draining := _draining b;
     _error_callbacks := _error_callbacks b; _default_timeout := _default_timeout b;
     _waiters := _waiters b; metrics := metrics b; event_log := event_log b;
     futures := futures b; effects := v |}.

(** [Bus.__init__] *)
Definition Bus_init (handler_timeout : float) (event_log_size : Z) : Outcome Bus :=
  match EventLog_init event_log_size with
  | Raise e => Raise e
  | Return log =>
      Return {| _subs := ∅; _queue := None; _running := false; _draining := false;
                _error_callbacks := []; _default_timeout := handler_timeout;
                _waiters := ∅; metrics := Metrics_init; event_log := log;
                futures := ∅; effects := [] |}
  end.

(** [Bus.register]: a handler that still has the class default of 30
    seconds takes the bus's timeout when that is not the default. *)
Definition register (handler : Handler) (self : Bus) : Bus :=
  let handler' :=
    if f_eqb (timeout handler) f_thirty && negb (f_eqb (_default_timeout self) f_thirty)
    then {| class_name := class_name handler; subscribes_to := subscribes_to handler;
            publishes := publishes handler; input_type := input_type handler;
            timeout := _default_timeout self; execution_mode := execution_mode handler;
            process := process handler |}
    else handler in
  let key := subscribes_to handler' in
  with_subs (<[key := default [] (_subs self !! key) ++ [handler']]> (_subs self)) self.

(** [Bus.on_error] *)
Definition on_error (callback : Callback) (self : Bus) : Bus :=
  with_error_callbacks (_error_callbacks self ++ [callback]) self.

(** [await self._queue.put(envelope)]: the queue is unbounded, so [put] never
    suspends; before [start] the attribute is [None]. *)
Definition queue_put (envelope : Envelope) (self : Bus) : Outcome Bus :=
  match _queue self with
  | Some q => Return (with_queue (Some (q ++ [envelope])) self)
  | None => Raise (AttributeError "'NoneType' object has no attribute 'put'")
  end.

(** The first argument of [publish]. *)
Inductive PublishArg :=
| ArgEnvelope (e : Envelope)
| ArgStr (s : string)
| ArgOther.

(** [Bus.publish].  [data] is [msgspec.Struct | None]; a struct is truthy. *)
Definition publish (w : World) (event_or_envelope : PublishArg) (data : option Struct)
    (source : string) (trace : option string) (user_id : string)
    (extra : option (gmap string string)) (self : Bus) : Outcome Bus :=
  match event_or_envelope, data with
  | ArgEnvelope e, _ => queue_put e self
  | ArgStr event, Some d => queue_put (create w event d source trace user_id extra) self
  | _, _ => Raise (ValueError "publish expects Envelope or (event_type, struct)")
  end.

(** The key of the waiter table: [f"{event}:{trace_id}"]. *)
Definition waiter_key (event trace : string) : string := event +:+ ":" +:+ trace.

(** The key [_check_waiters] looks an envelope up with. *)
Definition key_of (envelope : Envelope) : string :=
  waiter_key (event_type envelope) (trace_id envelope).

(** [timeout or self._default_timeout]: [None] and [0.0] are falsy. *)
Definition effective_timeout (t : option float) (self : Bus) : float :=
  match t with
  | Some x => if f_eqb x f_zero then _default_timeout self else x
  | None => _default_timeout self
  end.

(** What the coroutine of [request] holds while it waits. *)
Record PendingRequest := {
  rq_envelope : Envelope;
  rq_key : string;
  rq_future : nat;
  rq_timeout : option float;
  rq_wait : float;             (* the timeout [wait_for] was called with *)
}.

(** [Bus.request] up to [await asyncio.wait_for(future, ...)].  The waiter is
    stored before the envelope is put on the queue, outside the [try]. *)
Definition request_begin (w : World) (event : string) (data : Struct)
    (response_type : option string) (source : string) (t : option float)
    (user_id : string) (extra : option (gmap string string)) (self : Bus)
    : Bus * Outcome PendingRequest :=
  let envelope := create w event data source None user_id extra in
  let wait_event := opt_str_or response_type (event +:+ ".response") in
  let key := waiter_key wait_event (trace_id envelope) in
  let future := fresh (dom (futures self)) in
  let self1 := with_waiters (<[key := future]> (_waiters self))
                 (with_futures (<[future := Pending]> (futures self)) self) in
  match queue_put envelope self1 with
  | Raise e => (self1, Raise e)
  | Return self2 =>
      (self2, Return {| rq_envelope := envelope; rq_key := key;
                        rq_future := future; rq_timeout := t;
                        rq_wait := effective_timeout t self |})
  end.

(** [Bus.request] from the point where [wait_for] gives control back: with
    the future's result, or with [TimeoutError] after it cancelled the future.
    The [finally] clause runs on both paths.  Only this coroutine cancels
    its future and no future leaves the store. *)
Definition request_end (w : World) (rq : PendingRequest) (self : Bus) : Bus * Envelope :=
  match futures self !! rq_future rq with
  | Some (Finished result) =>
      (with_waiters (delete (rq_key rq) (_waiters self)) self, result)
  | _ =>
      let self1 := with_futures (<[rq_future rq := Cancelled]> (futures self)) self in
      (with_waiters (delete (rq_key rq) (_waiters self1)) self1,
       error_from w (rq_envelope rq)
         ("request timeout " +:+ f_repr (effective_timeout (rq_timeout rq) self) +:+ "s")
         "timeout" "bus.request" None)
  end.

(** [Bus.request] as a whole: [meanwhile] is what the other tasks do to the
    bus between the two pieces, and [w2] the world when the call goes on. *)
Definition request (w w2 : World) (event : string) (data : Struct)
    (response_type : option string) (source : string) (t : option float)
    (user_id : string) (extra : option (gmap string string))
    (meanwhile : Bus → Bus) (self : Bus) : Bus * Outcome Envelope :=
  match request_begin w event data response_type source t user_id extra self with
  | (self1, Return rq) =>
      let '(self2, result) := request_end w2 rq (meanwhile self1) in
      (self2, Return result)
  | (self1, Raise e) => (self1, Raise e)
  end.

(** [Bus._check_waiters] *)
Definition _check_waiters (envelope : Envelope) (self : Bus) : bool * Bus :=
  let key := key_of envelope in
  match _waiters self !! key with
  | Some future =>
      match futures self !! future with
      | Some state =>
          if negb (done state)
          then (true, with_futures (<[future := Finished envelope]> (futures self)) self)
          else (false, self)
      | None => (false, self)
      end
  | None => (false, self)
  end.

(** [Bus._notify_error]: every callback is called; one that raises is logged
    and the loop goes on. *)
Definition _notify_error (envelope : Envelope) (self : Bus) : Bus :=
  foldl (λ b cb,
           let b' := with_effects (effects b ++ [CallbackCalled (cb_id cb) envelope]) b in
           match cb_call cb envelope with
           | Return _ => b'
           | Raise _ => b'          (* log.error *)
           end)
        self (_error_callbacks self).


(** [asyncio.wait_for(coroutine, timeout)] *)
Definition wait_for {A} (r : Run A) (t : float) : Outcome A :=
  match r with
  | Completes d o => if f_ltb d t then o else Raise (TimeoutError "")
  | Never => Raise (TimeoutError "")
  end.

(** The handler classes a worker process can load.  [handler_cls name] is
    what [importlib.import_module(module_name)], [getattr(mod, class_name)]
    and [handler_cls()] of [_executor_run] give for the class of that name: a
    new instance, whose attributes are those the class and its constructor
    give it, or the exception of the import, of the lookup or of a
    constructor that needs arguments.  What [register] or [Domain.setup] set
    on the instance the bus holds is not in it. *)
Class Modules := {
  handler_cls : string → Outcome Handler;
}.
Context `{MODS : Modules}.

(** [_executor_run], in a worker process: the envelope comes through msgpack
    unchanged; a new instance of the class runs [handle] in a loop of its own,
    however long that takes.  [None] when [handle] never returns; an
    exception is handed to the future the bus awaits. *)
Definition _executor_run (w : World) (handler_class : string) (envelope : Envelope)
    : option (Outcome (option Envelope)) :=
  match handler_cls handler_class with
  | Raise e => Some (Raise e)
  | Return handler =>
      match handle w handler envelope with
      | Completes _ o => Some o
      | Never => None
      end
  end.

(** [ProcessPool.run_task]: the worker sends the result back through
    msgpack, and decoding it as an [Envelope] fails on the [None] of a handler
    without result.  An exception of the worker is raised again in the bus.
    Nothing bounds the wait: [None] when the worker never answers. *)
Definition run_task (w : World) (handler_class : string) (envelope : Envelope)
    : option (Outcome Envelope) :=
  match _executor_run w handler_class envelope with
  | Some (Return (Some r)) => Some (Return r)
  | Some (Return None) => Some (Raise (OtherException msgpack_nil_error))
  | Some (Raise e) => Some (Raise e)
  | None => None
  end.

(** The [await] in the [try] of [_run_handler]: [None] when it never gives
    control back. *)
Definition invoke (w : World) (handler : Handler) (envelope : Envelope)
    : option (Outcome (option Envelope)) :=
  if decide (execution_mode handler = "process") then
    match run_task w (class_name handler) envelope with
    | Some (Return r) => Some (Return (Some r))
    | Some (Raise e) => Some (Raise e)
    | None => None
    end
  else Some (wait_for (handle w handler envelope) (timeout handler)).

(** The two [except] clauses of [_run_handler] share their body. *)
Definition handler_failed (w : World) (dt : float) (handler : Handler)
    (envelope : Envelope) (message code : string) (self : Bus) : Bus * Envelope :=
  let name := class_name handler in
  let err := error_from w envelope message code name None in
  let self1 := with_metrics (Metrics_record name dt false message (metrics self)) self in
  let self2 := with_event_log (EventLog_record w err name dt false (event_log self1)) self1 in
  (_notify_error err self2, err).

(** [Bus._run_handler]; [dt] is [round((time.time() - t0) * 1000, 1)].  The
    result is [None] when the coroutine never returns. *)
Definition _run_handler (w : World) (dt : float) (handler : Handler)
    (envelope : Envelope) (self : Bus) : Bus * option (option Envelope) :=
  let name := class_name handler in
  let self0 := with_effects (effects self ++ [HandlerInvoked name envelope]) self in
  match invoke w handler envelope with
  | None => (self0, None)
  | Some (Return result) =>
      let self1 := with_metrics (Metrics_record name dt true "" (metrics self0)) self0 in
      let self2 :=
        match result with
        | Some r => with_event_log (EventLog_record w r name dt true (event_log self1)) self1
        | None => self1
        end in
      (self2, Some result)
  | Some (Raise (TimeoutError _)) =>
      let '(self1, err) :=
        handler_failed w dt handler envelope
          ("timeout " +:+ f_repr (timeout handler) +:+ "s") "timeout" self0 in
      (self1, Some (Some err))
  | Some (Raise e) =>
      let '(self1, err) :=
        handler_failed w dt handler envelope (exn_str e) "handler_error" self0 in
      (self1, Some (Some err))
  end.

(** What the loop of [start] does with one item of the queue: take it;
    [_dispatch] then runs as a task of its own. *)
Definition dequeue (self : Bus) : option (Envelope * Bus) :=
  match _queue self with
  | Some (envelope :: rest) => Some (envelope, with_queue (Some rest) self)
  | _ => None
  end.

(** [Bus._dispatch] up to [asyncio.gather]: the handlers a task is made for. *)
Definition _dispatch_begin (w : World) (envelope : Envelope) (self : Bus)
    : Bus * list Handler :=
  let self1 := with_event_log
                 (EventLog_record w envelope "" f_zero true (event_log self)) self in
  let '(hit, self2) := _check_waiters envelope self1 in
  if hit then (self2, [])
  else
    let handlers := default [] (_subs self2 !! event_type envelope) in
    match handlers with
    | [] => (self2, [])            (* log.debug *)
    | _ => (self2, handlers)
    end.

(** One turn of the loop over the results of [gather]. *)
Definition _dispatch_result (result : option Envelope) (self : Bus) : Outcome Bus :=
  match result with
  | Some r =>
      let '(hit, self1) := _check_waiters r self in
      if hit then Return self1 else queue_put r self1
  | None => Return self
  end.

(** [Bus._dispatch] after [asyncio.gather]: the loop over the results. *)
Fixpoint _dispatch_results (results : list (option Envelope)) (self : Bus)
    : Bus * Outcome unit :=
  match results with
  | [] => (self, Return ())
  | r :: rest =>
      match _dispatch_result r self with
      | Return self1 => _dispatch_results rest self1
      | Raise e => (self, Raise e)
      end
  end.

(** The handler tasks of one [gather], run one after the other in the order
    of the subscription list; [tick i] is the world and the measured time of
    the [i]-th of them.  The results are [None] when some task never
    returns. *)
Fixpoint gather (tick : nat → World * float) (i : nat) (handlers : list Handler)
    (envelope : Envelope) (self : Bus) : Bus * option (list (option Envelope)) :=
  match handlers with
  | [] => (self, Some [])
  | h :: rest =>
      let '(self1, r) := _run_handler (tick i).1 (tick i).2 h envelope self in
      let '(self2, rs) := gather tick (S i) rest envelope self1 in
      (self2, match r, rs with
              | Some r, Some rs => Some (r :: rs)
              | _, _ => None
              end)
  end.

(** [Bus._dispatch] on a schedule where nothing else runs in between: the
    pieces above in sequence.  The result is [None] when the task never
    finishes. *)
Definition _dispatch (w : World) (tick : nat → World * float) (envelope : Envelope)
    (self : Bus) : Bus * option (Outcome unit) :=
  let '(self1, handlers) := _dispatch_begin w envelope self in
  match handlers with
  | [] => (self1, Some (Return ()))
  | _ =>
      let '(self2, results) := gather tick 0 handlers envelope self1 in
      match results with
      | Some rs => let '(self3, o) := _dispatch_results rs self2 in (self3, Some o)
      | None => (self2, None)
      end
  end.

(** The first lines of [Bus.start] *)
Definition start_begin (self : Bus) : Bus :=
  with_flags true (_draining self) (with_waiters ∅ (with_queue (Some []) self)).

(** The envelope [stop] resolves a pending waiter with. *)
Definition shutdown_envelope (w : World) : Envelope :=
  error_from w (create w "shutdown" empty_struct "" None "" None)
    "bus shutting down" "shutdown" "bus" None.

(** One turn of the loop of [stop] over the waiter table:
    [if not future.done(): future.set_result(...)]. *)
Definition resolve_shutdown (ws : string → World) (fs : gmap nat FutureState)
    (kf : string * nat) : gmap nat FutureState :=
  match fs !! kf.2 with
  | Some state =>
      if negb (done state)
      then <[kf.2 := Finished (shutdown_envelope (ws kf.1))]> fs
      else fs
  | None => fs
  end.

(** The end of [Bus.stop], after the drain: every waiter that is not done
    gets a shutdown error and the table is cleared.  [ws key] is the world of
    the turn of the loop for [key]. *)
Definition stop_end (ws : string → World) (self : Bus) : Bus :=
  with_flags (_running self) false
    (with_waiters ∅
       (with_futures
          (foldl (resolve_shutdown ws) (futures self) (map_to_list (_waiters self)))
          self)).

(** The text of a warning of [validate_graph]. *)
Definition dangling_warning (d : string) : string :=
  "event '" +:+ d +:+ "' published but no handler subscribes".

(** [Bus.validate_graph].  The sets are filled in one pass over the table;
    the second loop of the method fills a local table that is never read and
    is left out.  The bus is returned to show what the method did to it. *)
Definition validate_graph (self : Bus) : list string * Bus :=
  let table := map_to_list (_subs self) in
  let subscribed : gset string := list_to_set (table.*1) in
  let published : gset string :=
    list_to_set (filter (λ p, p ≠ "") (publishes <$> mjoin (table.*2))) in
  (dangling_warning <$> elements (published ∖ subscribed), self).

(** The waiter table holds, under [key], a future that is not done. *)
Definition pending_waiter (self : Bus) (key : string) (future : nat) : Prop :=
  _waiters self !! key = Some future ∧ futures self !! future = Some Pending.

(** Every future of the waiter table is in the store of futures. *)
Definition waiters_in_store (self : Bus) : Prop :=
  ∀ key future, _waiters self !! key = Some future → is_Some (futures self !! future).

(** What the other tasks may do to the bus while the request [rq] waits and
    no envelope with the key of [rq] is dispatched: dispatch envelopes and
    hand back handler results of other keys, run handlers, take from and
    put on the queue, begin other requests and end other requests (which
    hold futures of their own), register handlers and callbacks.  [stop] is
    not among them. *)
Inductive others_step (rq : PendingRequest) : Bus → Bus → Prop :=
| os_dequeue b e b' :
    dequeue b = Some (e, b') → others_step rq b b'
| os_dispatch_begin w e b :
    key_of e ≠ rq_key rq → others_step rq b (_dispatch_begin w e b).1
| os_run_handler w dt h e b :
    others_step rq b (_run_handler w dt h e b).1
| os_dispatch_result r b b' :
    key_of r ≠ rq_key rq → _dispatch_result (Some r) b = Return b' →
    others_step rq b b'
| os_publish w arg data source trace user_id extra b b' :
    publish w arg data source trace user_id extra b = Return b' →
    others_step rq b b'
| os_request_begin w event data response_type source t user_id extra b :
    others_step rq b
      (request_begin w event data response_type source t user_id extra b).1
| os_request_end w rq' b :
    rq_future rq' ≠ rq_future rq → others_step rq b (request_end w rq' b).1
| os_register h b :
    others_step rq b (register h b)
| os_on_error cb b :
    others_step rq b (on_error cb b).


(** [h] stands in the subscription table under the topic [t]: it is what
    [_dispatch] runs for an envelope of that topic. *)
Definition subscriber (self : Bus) (t : string) (h : Handler) : Prop :=
  ∃ hs, _subs self !! t = Some hs ∧ h ∈ hs.

(** No topic of the table has an empty list: [register], the one writer of
    the table, appends to the list of a topic. *)
Definition subs_nonempty (self : Bus) : Prop :=
  ∀ t hs, _subs self !! t = Some hs → hs ≠ [].

End Khorsyio.

Arguments Completes {RT A} after o.
Arguments Never {RT A}.

(** ** The rest of the bus and its callers *)

(** [s.startswith(prefix)] *)
Definition startswith (s prefix : string) : bool := String.prefix prefix s.

(** The string holds the character [:]. *)
Fixpoint has_colon (s : string) : bool :=
  match s with
  | EmptyString => false
  | String c rest => if Ascii.eqb c (Ascii.ascii_of_nat 58) then true else has_colon rest
  end.

Section KhorsyioRest.
Context `{RT : PyRuntime}.
Context {MODS : @Modules RT}.

(** [Envelope.decode]; [typ] is [msgspec.json.decode(_, type=typ)]. *)
Definition decode (self : Envelope) (typ : list byte → Outcome Struct) : Outcome Struct :=
  typ (payload self).

(** The envelopes made from [e0] by [forward] and [error_from], in any
    number of steps. *)
Inductive derived (e0 : Envelope) : Envelope → Prop :=
| derived_self : derived e0 e0
| derived_forward w e t d s :
    derived e0 e → derived e0 (forward w e t d s)
| derived_error_from w e message code source details :
    derived e0 e → derived e0 (error_from w e message code source details).

(** *** Metrics.snapshot *)

(** The dict [snapshot] holds for a name; [last_error] is a key of it only
    when the name has one. *)
Record MetricsEntry := {
  me_processed : Z;
  me_errors : Z;
  me_avg_ms : float;
  me_last_error : option string;
}.

(** One turn of the loop of [snapshot] over [self.processed]. *)
Definition snapshot_turn (acc : Outcome (gmap string MetricsEntry) * Metrics)
    (item : string * Z) : Outcome (gmap string MetricsEntry) * Metrics :=
  match acc with
  | (Raise e, m) => (Raise e, m)
  | (Return result, m) =>
      let count := item.2 in                           (* self.processed[name] *)
      let failed := default 0 (errors m !! item.1) in  (* self.errors.get(name, 0) *)
      match avg_ms item.1 m with
      | (Raise e, m') => (Raise e, m')
      | (Return avg, m') =>
          (Return (<[item.1 := {| me_processed := count; me_errors := failed;
                                  me_avg_ms := avg;
                                  me_last_error := last_error m' !! item.1 |}]> result),
           m')
      end
  end.

(** [Metrics.snapshot] *)
Definition Metrics_snapshot (self : Metrics)
    : Outcome (gmap string MetricsEntry) * Metrics :=
  foldl snapshot_turn (Return ∅, self) (map_to_list (processed self)).

(** The calls of a sequence that name [name] and report a failure. *)
Definition failures_of (name : string) (calls : list (string * float * bool * string))
    : list (string * float * bool * string) :=
  filter (λ c, c.1.2 = false) (calls_of name calls).

(** *** register *)

(** The handler as [register] stores it on a bus with the timeout [t]. *)
Definition with_bus_timeout (t : float) (handler : Handler) : Handler :=
  if f_eqb (timeout handler) f_thirty && negb (f_eqb t f_thirty)
  then {| class_name := class_name handler; subscribes_to := subscribes_to handler;
          publishes := publishes handler; input_type := input_type handler;
          timeout := t; execution_mode := execution_mode handler;
          process := process handler |}
  else handler.

(** [register] called for each handler of a list, in order. *)
Definition register_all (handlers : list Handler) (self : Bus) : Bus :=
  foldl (λ b h, register h b) self handlers.

(** [on_error] called for each callback of a list, in order. *)
Definition on_error_all (callbacks : list Callback) (self : Bus) : Bus :=
  foldl (λ b cb, on_error cb b) self callbacks.

(** The handler invocations among the calls of the bus, in order. *)
Definition handler_calls (calls : list Effect) : list (string * Envelope) :=
  omap (λ x, match x with
             | HandlerInvoked name e => Some (name, e)
             | CallbackCalled _ _ => None
             end) calls.

(** The callback invocations among the calls of the bus, in order. *)
Definition callback_calls (calls : list Effect) : list (nat * Envelope) :=
  omap (λ x, match x with
             | CallbackCalled cb e => Some (cb, e)
             | HandlerInvoked _ _ => None
             end) calls.

(** *** start and stop *)

(** What one turn of the loop of [start] comes to. *)
Inductive LoopTurn :=
| Spawn (envelope : Envelope) (self : Bus)   (* create_task(self._dispatch(envelope)) *)
| Idle (self : Bus)                          (* continue *)
| Exit (self : Bus).                         (* the loop is left *)

(** One turn of [while self._running or self._draining] in [start]: the
    head of the queue goes to a dispatch task; on an empty queue [wait_for]
    times out after half a second, and the loop is left when the bus is
    draining.  An exception (the queue attribute is [None]) is logged and the
    loop goes on. *)
Definition start_turn (self : Bus) : LoopTurn :=
  if _running self || _draining self then
    match _queue self with
    | Some (envelope :: rest) => Spawn envelope (with_queue (Some rest) self)
    | Some [] => if _draining self then Exit self else Idle self
    | None => Idle self
    end
  else Exit self.

(** The loop of [start] for at most [fuel] turns while no other task runs:
    the envelopes it made dispatch tasks for, the bus, and whether it has
    left the loop. *)
Fixpoint start_loop (fuel : nat) (self : Bus) : list Envelope * Bus * bool :=
  match fuel with
  | O => ([], self, false)
  | S fuel' =>
      match start_turn self with
      | Spawn envelope self' =>
          let '(spawned, self'', out) := start_loop fuel' self' in
          (envelope :: spawned, self'', out)
      | Idle self' => start_loop fuel' self'
      | Exit self' => ([], self', true)
      end
  end.


(** *** Scheduled tasks *)

Record ScheduledTask := {
  st_event_type : string;
  st_data : Struct;
  st_interval : float;
  st_source : string;
}.

(** One turn of the loop of [_run_scheduled], after the sleep: a running bus
    publishes the event of the task; an exception of [publish] is logged. *)
Definition scheduled_turn (w : World) (task : ScheduledTask) (self : Bus) : Bus :=
  if _running self then
    match publish w (ArgStr (st_event_type task)) (Some (st_data task))
            (st_source task) None "" None self with
    | Return self' => self'
    | Raise _ => self               (* log.error *)
    end
  else self.

(** *** domain.py *)

(** What [Domain.setup] makes of a topic under the namespace [ns]. *)
Definition namespaced (ns topic : string) : string :=
  if negb (bool_decide (topic = "")) && negb (startswith topic (ns +:+ "."))
  then ns +:+ "." +:+ topic
  else topic.

(** The body of the loop of [Domain.setup] for a handler instance, up to
    [app.register(handler)]. *)
Definition setup_handler (ns : string) (handler : Handler) : Handler :=
  if decide (ns = "") then handler
  else {| class_name := class_name handler;
          subscribes_to := namespaced ns (subscribes_to handler);
          publishes := namespaced ns (publishes handler);
          input_type := input_type handler; timeout := timeout handler;
          execution_mode := execution_mode handler; process := process handler |}.

(** [Domain.setup] for a domain whose handlers are instances, as far as the
    bus is concerned ([App.register] is [Bus.register]); the routes go to the
    router. *)
Definition Domain_setup (ns : string) (handlers : list Handler) (bus : Bus) : Bus :=
  foldl (λ b h, register (setup_handler ns h) b) bus handlers.

(** The turns of the loop of [_run_scheduled] of one task, one per world. *)
Definition scheduled_turns (ws : list World) (task : ScheduledTask) (self : Bus) : Bus :=
  foldl (λ b w, scheduled_turn w task b) self ws.

End KhorsyioRest.

(** *** transport.py *)

Section Transport.
Context `{RT : PyRuntime}.
(** JSON values and msgspec's encoder and decoder for them. *)
Variable Json : Type.
Variable json_dumps : Json → list byte.
Variable json_loads : list byte → Outcome Json.
Variable empty_object : Json.

(** The dict a websocket client sends with an [event]. *)
Record WsEvent := {
  ws_event_type : option string;
  ws_payload : option Json;
  ws_trace_id : option string;
  ws_user_id : option string;
  ws_reply_event : option string;
}.

(** What [sio.emit] sent: an error to one client, or the dict of an envelope
    to one client or to all. *)
Inductive Emitted :=
| EmitError (to : string) (text : string)
| EmitEnvelope (to : option string) (event trace : string) (body : Json)
    (err : option (string * string)).

(** A [SocketTransport]: the connected session ids and what was emitted. *)
Record SocketTransport := {
  _sid_map : gset string;
  emitted : list Emitted;
}.

Definition with_emitted (v : list Emitted) (self : SocketTransport) : SocketTransport :=
  {| _sid_map := _sid_map self; emitted := v |}.

(** The handlers [connect] and [disconnect]. *)
Definition ws_connect (sid : string) (self : SocketTransport) : SocketTransport :=
  {| _sid_map := {[sid]} ∪ _sid_map self; emitted := emitted self |}.

Definition ws_disconnect (sid : string) (self : SocketTransport) : SocketTransport :=
  {| _sid_map := _sid_map self ∖ {[sid]}; emitted := emitted self |}.

(** The envelope the handler [event] builds. *)
Definition ws_envelope (w : World) (sid : string) (event : string) (data : WsEvent)
    : Envelope :=
  {| ctx := {| ctx_trace_id := opt_str_or (ws_trace_id data) (uuid4_hex16 w);
               ctx_timestamp := time_time w;
               ctx_source := "ws:" +:+ sid;
               ctx_user_id := default "" (ws_user_id data);
               ctx_extra := <["_ws_sid" := sid]>
                              (<["_ws_reply" := default "" (ws_reply_event data)]> ∅) |};
     event_type := event;
     payload := json_dumps (default empty_object (ws_payload data));
     error := None |}.

(** The handler [event] of the transport. *)
Definition ws_event (w : World) (sid : string) (data : WsEvent)
    (self : SocketTransport) (bus : Bus) : SocketTransport * Bus :=
  match ws_event_type data with
  | Some event =>
      if decide (event = "") then
        (with_emitted (emitted self ++ [EmitError sid "missing event_type"]) self, bus)
      else
        match publish w (ArgEnvelope (ws_envelope w sid event data)) None "" None "" None
                bus with
        | Return bus' => (self, bus')
        | Raise e => (with_emitted (emitted self ++ [EmitError sid (exn_str e)]) self, bus)
        end
  | None => (with_emitted (emitted self ++ [EmitError sid "missing event_type"]) self, bus)
  end.

(** [SocketTransport.emit_envelope]: decoding the payload may fail. *)
Definition emit_envelope (envelope : Envelope) (sid : option string)
    (self : SocketTransport) : SocketTransport * Outcome unit :=
  match json_loads (payload envelope) with
  | Raise e => (self, Raise e)
  | Return body =>
      let to := match sid with
                | Some s => if decide (s = "") then None else Some s
                | None => None
                end in
      (with_emitted
         (emitted self ++
            [EmitEnvelope to (event_type envelope) (trace_id envelope) body
               ((λ err, (err_code err, err_message err)) <$> error envelope)]) self,
       Return ())
  end.

(** [SocketTransport.reply_to_sender] *)
Definition reply_to_sender (envelope : Envelope) (self : SocketTransport)
    : SocketTransport * Outcome bool :=
  match ctx_extra (ctx envelope) !! "_ws_sid" with
  | Some sid =>
      if negb (bool_decide (sid = "")) && bool_decide (sid ∈ _sid_map self) then
        match emit_envelope envelope (Some sid) self with
        | (self', Return _) => (self', Return true)
        | (self', Raise e) => (self', Raise e)
        end
      else (self, Return false)
  | None => (self, Return false)
  end.

End Transport.

Arguments ws_event_type {Json} _.
Arguments ws_payload {Json} _.
Arguments ws_trace_id {Json} _.
Arguments ws_user_id {Json} _.
Arguments ws_reply_event {Json} _.
Arguments EmitError {Json} to text.
Arguments EmitEnvelope {Json} to event trace body err.
Arguments _sid_map {Json} _.
Arguments emitted {Json} _.
Arguments with_emitted {Json} v self.
Arguments ws_connect {Json} sid self.
Arguments ws_disconnect {Json} sid self.
Arguments ws_envelope {RT Json} json_dumps empty_object w sid event data.
Arguments ws_event {RT Json} json_dumps empty_object w sid data self bus.
Arguments emit_envelope {RT Json} json_loads envelope sid self.
Arguments reply_to_sender {RT Json} json_loads envelope self.

(** ** A runtime to run the model on

    Rationals stand for floats and JSON text for structs. *)

Module Sample.

(** [round(x, ndigits)] on a rational, ties to even, for [ndigits >= 0]. *)
Definition q_round (x : Q) (ndigits : Z) : Q :=
  let scale := inject_Z (10 ^ ndigits) in
  let y := Qmult x scale in
  let lo := Qfloor y in
  let twice := Qminus (Qmult (2 # 1) y) (inject_Z (2 * lo)) in
  let n := match Qcompare twice (1 # 1) with
           | Lt => lo
           | Gt => lo + 1
           | Eq => if Z.even lo then lo else lo + 1
           end in
  Qred (Qdiv (inject_Z n) scale).

Definition q_repr (x : Q) : string :=
  pretty (Qnum (Qred x)) +:+ "/" +:+ pretty (Zpos (Qden (Qred x))).

#[export] Instance runtime : PyRuntime := {|
  float := Q;
  f_zero := 0 # 1;
  f_thirty := 30 # 1;
  f_add x y := Qred (Qplus x y);
  f_div_int x n := Qred (Qdiv x (inject_Z n));
  f_round := q_round;
  f_eqb := Qeq_bool;
  f_ltb x y := negb (Qle_bool y x);
  f_repr := q_repr;
  Struct := string;
  json_encode s := String.list_byte_of_string s;
  empty_struct := "{}";
  msgpack_nil_error := "Expected `object`, got `null`";
|}.

(** A rational as a float of this runtime. *)
Definition fl (q : Q) : float := q.

(** JSON text as a struct of this runtime. *)
Definition struct_of (s : string) : Struct := s.

Definition world : World :=
  {| uuid4_hex16 := "0123456789abcdef"; time_time := 1700000000 # 1 |}.

Definition ctx_of (trace : string) : Context :=
  {| ctx_trace_id := trace; ctx_timestamp := 1699999999 # 1; ctx_source := "test";
     ctx_user_id := "u1"; ctx_extra := ∅ |}.

(** An envelope of topic [event] and trace id [trace]. *)
Definition envelope_of (event trace : string) : Envelope :=
  {| ctx := ctx_of trace; event_type := event;
     payload := String.list_byte_of_string "[1, 2]"; error := None |}.

(** The handler of the test suite: it answers [test.event] with the payload
    prefixed by [echo:] under [test.result]. *)
Definition echo : Handler :=
  {| class_name := "MockHandler";
     subscribes_to := "test.event";
     publishes := "test.result";
     input_type := Some (λ bytes, Return (String.string_of_list_byte bytes));
     timeout := 30 # 1;
     execution_mode := "main";
     process := λ data _,
       match data with
       | VStruct s => Completes (1 # 1000) (Return (VStruct ("echo:" +:+ s)))
       | _ => Completes (1 # 1000) (Raise (OtherException "bad input"))
       end |}.

(** [Bus()] with the defaults of the constructor. *)
Definition new_bus : Bus :=
  {| _subs := ∅; _queue := None; _running := false; _draining := false;
     _error_callbacks := []; _default_timeout := 30 # 1;
     _waiters := ∅; metrics := Metrics_init;
     event_log := {| maxlen := 200; _buffer := [] |};
     futures := ∅; effects := [] |}.

(** The bus of the test suite once [start] has set it up. *)
Definition started : Bus := start_begin (register echo new_bus).

(** A handler that consumes the answers of [echo]. *)
Definition sink : Handler :=
  {| class_name := "Sink";
     subscribes_to := "test.result";
     publishes := "";
     input_type := None;
     timeout := 30 # 1;
     execution_mode := "main";
     process := λ _ _, Completes (1 # 1000) (Return VNone) |}.

(** The started bus with [sink] beside [echo], while a
    [request("test.event", data, response_type="test.result")] waits. *)
Definition waiting : Bus :=
  (request_begin world "test.event" "[1, 2]" (Some "test.result") "" None "" None
     (start_begin (register sink (register echo new_bus)))).1.

(** The answer to that request. *)
Definition answer : Envelope :=
  forward world (envelope_of "test.event" "0123456789abcdef") "test.result"
    "echo:[1, 2]" "MockHandler".

(** The handler of the timeout scenario: a timeout of 0.01 seconds and a
    [process] that sleeps for one second. *)
Definition slow : Handler :=
  {| class_name := "Slow";
     subscribes_to := "slow.event";
     publishes := "slow.result";
     input_type := None;
     timeout := 1 # 100;
     execution_mode := "main";
     process := λ _ _, Completes (1 # 1) (Return VNone) |}.

(** The same handler, offloaded, answering with an envelope. *)
Definition heavy : Handler :=
  {| class_name := "HeavyHandler";
     subscribes_to := "calc.heavy";
     publishes := "calc.result";
     input_type := None;
     timeout := 1 # 100;
     execution_mode := "process";
     process := λ _ _,
       Completes (1 # 1) (Return (VEnvelope (envelope_of "calc.result" "t1"))) |}.

(** A handler whose [process] raises [RuntimeError("boom")]. *)
Definition failing : Handler :=
  {| class_name := "Failing";
     subscribes_to := "fail.event";
     publishes := "";
     input_type := None;
     timeout := 30 # 1;
     execution_mode := "main";
     process := λ _ _, Completes (1 # 1000) (Raise (OtherException "boom")) |}.

(** A handler whose [process] lets an [asyncio.TimeoutError] of its own
    escape, long before the handler's timeout. *)
Definition inner_timeout : Handler :=
  {| class_name := "Inner";
     subscribes_to := "inner.event";
     publishes := "";
     input_type := None;
     timeout := 30 # 1;
     execution_mode := "main";
     process := λ _ _, Completes (1 # 1000) (Raise (TimeoutError "inner")) |}.

(** An error callback that raises. *)
Definition alarm : Callback :=
  {| cb_id := 7; cb_call := λ _, Raise (OtherException "alarm failed") |}.

(** An error callback that returns. *)
Definition collect : Callback :=
  {| cb_id := 8; cb_call := λ _, Return () |}.

(** The started bus with the two callbacks. *)
Definition watched : Bus := on_error collect (on_error alarm started).

(** A handler that consumes [x] and announces [y]. *)
Definition handler_a : Handler :=
  {| class_name := "A";
     subscribes_to := "x";
     publishes := "y";
     input_type := None;
     timeout := 30 # 1;
     execution_mode := "main";
     process := λ _ _, Completes (1 # 1000) (Return (VStruct "{}")) |}.

(** An offloaded handler that answers with a struct, forwarded under
    [calc.report]. *)
Definition report : Handler :=
  {| class_name := "ReportHandler";
     subscribes_to := "calc.request";
     publishes := "calc.report";
     input_type := None;
     timeout := 30 # 1;
     execution_mode := "process";
     process := λ _ _, Completes (2 # 1) (Return (VStruct "[3]")) |}.

(** The handler classes of the sample: each as its class declares it. *)
Definition classes : list Handler :=
  [echo; sink; slow; heavy; failing; inner_timeout; handler_a; report].

#[global] Instance modules : Modules := {|
  handler_cls name :=
    match filter (λ h, class_name h = name) classes with
    | h :: _ => Return h
    | [] => Raise (AttributeError ("module has no attribute '" +:+ name +:+ "'"))
    end;
|}.

(** The world and the measured time of every handler task of the runs
    below. *)
Definition tick : nat → World * float := λ _, (world, 1 # 10).

(** [test_bus_publish_subscribe]: [publish("test.event", Data(...))] on the
    started bus, then the loop takes the envelope and dispatches it. *)
Definition published : Outcome Bus :=
  publish world (ArgStr "test.event") (Some "hello") "" None "" None started.

Definition dispatched : option Bus :=
  match published with
  | Return b =>
      match dequeue b with
      | Some (e, b') => Some (_dispatch world tick e b').1
      | None => None
      end
  | Raise _ => None
  end.

(** The event type and the [ok] flag of the last ten entries of the log, and
    the event types of the queue. *)
Definition log_view (b : Bus) : list (string * bool) :=
  (λ e : LogEntry, (le_event_type e, le_ok e)) <$> recent 10 None None (event_log b).

Definition queue_view (b : Bus) : option (list string) :=
  (λ q : list Envelope, event_type <$> q) <$> _queue b.

(** [test_bus_request_response]: [request("test.event", Data(...),
    response_type="test.result", timeout=1.0)], the dispatch of its envelope,
    and the return of the request. *)
Definition loop_turn (b : Bus) : Bus :=
  match dequeue b with
  | Some (e, b') => (_dispatch world tick e b').1
  | None => b
  end.

Definition responded : Outcome Envelope :=
  (request world world "test.event" "req" (Some "test.result") ""
     (Some (1 # 1)) "" None loop_turn started).2.

End Sample.

(** More data of the sample runtime: a log, a queue, and a websocket
    transport whose JSON values are JSON text. *)
Module Fixtures.

Definition json_dumps (j : string) : list byte := String.list_byte_of_string j.

Definition json_loads (bytes : list byte) : Outcome string :=
  Return (String.string_of_list_byte bytes).

(** A message of session [s1] and the transport that session is connected
    to. *)
Definition message : WsEvent string :=
  {| ws_event_type := Some "chat.send"; ws_payload := Some "[1, 2]";
     ws_trace_id := None; ws_user_id := Some "u1"; ws_reply_event := None |}.

Definition transport : SocketTransport string :=
  {| _sid_map := {["s1"]}; emitted := [] |}.

(** The reply a handler forwards for that message. *)
Definition reply : Envelope :=
  forward Sample.world (ws_envelope json_dumps "{}" Sample.world "s1" "chat.send" message)
    "chat.reply" (Sample.struct_of "[1, 2]") "ChatHandler".

(** The decoder of the input type of [Sample.echo]. *)
Definition text_type (bytes : list byte) : Outcome Struct :=
  Return (Sample.struct_of (String.string_of_list_byte bytes)).

(** A log of capacity 200 after three events. *)
Definition history : EventLog :=
  EventLog_record_all
    [ {| rc_world := Sample.world; rc_envelope := Sample.envelope_of "a" "t1";
         rc_handler := ""; rc_duration_ms := Sample.fl (0 # 1); rc_ok := true |};
      {| rc_world := Sample.world; rc_envelope := Sample.envelope_of "b" "t1";
         rc_handler := "H"; rc_duration_ms := Sample.fl (2 # 1); rc_ok := true |};
      {| rc_world := Sample.world; rc_envelope := Sample.envelope_of "a" "t2";
         rc_handler := ""; rc_duration_ms := Sample.fl (0 # 1); rc_ok := true |} ]
    {| maxlen := 200; _buffer := [] |}.

(** The started bus of the test suite with two envelopes on the queue. *)
Definition backlog : list Envelope :=
  [Sample.envelope_of "test.event" "t1"; Sample.envelope_of "test.event" "t2"].

Definition loaded : Bus := with_queue (Some backlog) Sample.started.

(** An error envelope of the bus, forwarded once. *)
Definition failure : Envelope :=
  forward Sample.world
    (error_from Sample.world reply "boom" "handler_error" "ChatHandler" None)
    "chat.failed" (Sample.struct_of "{}") "Audit".

(** A created envelope, forwarded and then turned into an error. *)
Definition chained : Envelope :=
  error_from Sample.world
    (forward Sample.world
       (create Sample.world "a.b" (Sample.struct_of "{}") "src" None "u1" None)
       "c.d" (Sample.struct_of "{}") "H")
    "boom" "x" "H" None.

End Fixtures.

(** * Properties *)

Section Properties.
Context `{RT : PyRuntime}.
Context {MODS : @Modules RT}.

(** ** The message model *)

Lemma str_or_nonempty (x y : string) : x ≠ "" → str_or x y = x.
Proof. intros Hx. unfold str_or. by destruct (decide (x = "")). Qed.

Lemma str_or_empty (y : string) : str_or "" y = y.
Proof. reflexivity. Qed.

(** [forward] gives the new envelope the trace id of the old one, unless
    that is empty: then [create] draws a fresh one. *)
Lemma forward_trace_id (w : World) (e : Envelope) (t : string) (d : Struct) (s : string) :
  trace_id (forward w e t d s) = str_or (trace_id e) (uuid4_hex16 w).
Proof. reflexivity. Qed.

Lemma forward_event_type (w : World) (e : Envelope) (t : string) (d : Struct) (s : string) :
  event_type (forward w e t d s) = t.
Proof. reflexivity. Qed.

(** C5 (amended).  For every envelope [e] whose trace id is not empty,
    [e.forward(t, d, s)] has the trace id of [e] (and the event type [t]);
    for every envelope [e], [Envelope.error_from(e, message, code, source)]
    has the trace id of [e] in its context and in its error, and the event
    type of [e] followed by [.error]. *)
Theorem forward_and_error_from_keep_trace_id
    (w : World) (e : Envelope) (t : string) (d : Struct)
    (s message code source : string) (details : option (gmap string string)) :
  (trace_id e ≠ "" →
     trace_id (forward w e t d s) = trace_id e ∧ event_type (forward w e t d s) = t) ∧
  trace_id (error_from w e message code source details) = trace_id e ∧
  (err_trace_id <$> error (error_from w e message code source details)) = Some (trace_id e) ∧
  event_type (error_from w e message code source details) = event_type e +:+ ".error".
Proof.
  split; [|done].
  intros Hne. split; [|done].
  rewrite forward_trace_id. by apply str_or_nonempty.
Qed.

(** ** The handler contract *)

Lemma handle_completes (w : World) (h : Handler) (e : Envelope) (data v : PyValue)
    (d : float) :
  handler_input h e = Return data →
  process h data (ctx e) = Completes d (Return v) →
  handle w h e = Completes d (Return (handle_result w h e v)).
Proof. intros Hin Hp. unfold handle. by rewrite Hin, Hp. Qed.

(** C7 (amended).  When [h.process], called by [h.handle(e)], returns a value,
    [handle] returns: [None] for [None]; the envelope itself for an
    envelope; for a struct and a non-empty [h.publishes], the envelope
    forwarded under [h.publishes], whose trace id is that of [e] when that
    is not empty; and [None] for a payload when [h.publishes] is empty. *)
Theorem handle_returns (w : World) (h : Handler) (e : Envelope) (data v : PyValue)
    (d : float) :
  handler_input h e = Return data →
  process h data (ctx e) = Completes d (Return v) →
  ∃ r, handle w h e = Completes d (Return r) ∧
    match v with
    | VNone => r = None
    | VEnvelope x => r = Some x
    | VStruct s =>
        (publishes h ≠ "" →
           r = Some (forward w e (publishes h) s (class_name h)) ∧
           (event_type <$> r) = Some (publishes h) ∧
           (trace_id e ≠ "" → (trace_id <$> r) = Some (trace_id e))) ∧
        (publishes h = "" → r = None)
    | VOther => r = None
    end.
Proof.
  intros Hin Hp. exists (handle_result w h e v).
  split; [by apply handle_completes with data|].
  destruct v as [|x|s|]; simpl; try done.
  destruct (decide (publishes h = "")) as [He|Hne].
  - split; [done|]. done.
  - split; [|done]. intros _. repeat split; simpl.
    intros Ht. f_equal. rewrite forward_trace_id. by apply str_or_nonempty.
Qed.

(** ** Metrics *)

Lemma py_truediv_nonzero (x : float) (n : Z) :
  n ≠ 0 → py_truediv x n = Return (f_div_int x n).
Proof. intros Hn. unfold py_truediv. by destruct (decide (n = 0)). Qed.

Lemma Metrics_record_all_snoc calls c (m : Metrics) :
  Metrics_record_all (calls ++ [c]) m
    = Metrics_record c.1.1.1 c.1.1.2 c.1.2 c.2 (Metrics_record_all calls m).
Proof. unfold Metrics_record_all. by rewrite foldl_app. Qed.

Lemma Metrics_record_processed name d ok err (m : Metrics) :
  processed (Metrics_record name d ok err m)
    = <[name := default 0 (processed m !! name) + 1]> (processed m).
Proof. unfold Metrics_record. by destruct ok. Qed.

Lemma Metrics_record_total_ms name d ok err (m : Metrics) :
  total_ms (Metrics_record name d ok err m)
    = <[name := f_add (default f_zero (total_ms m !! name)) d]> (total_ms m).
Proof. unfold Metrics_record. by destruct ok. Qed.

Lemma Metrics_record_errors name d err (m : Metrics) :
  errors (Metrics_record name d false err m)
    = <[name := default 0 (errors m !! name) + 1]> (errors m).
Proof. reflexivity. Qed.

(** After any sequence of calls on a new [Metrics], the tables hold, for a
    name with at least one call, the number of its calls and the sum of its
    durations, and nothing for any other name. *)
Lemma Metrics_record_all_tables (name : string) calls :
  let m := Metrics_record_all calls Metrics_init in
  let mine := calls_of name calls in
  processed m !! name
    = (if decide (mine = []) then None else Some (Z.of_nat (length mine))) ∧
  total_ms m !! name
    = (if decide (mine = []) then None else Some (cumulative mine)).
Proof.
  induction calls as [|c calls IH] using rev_ind.
  { cbn. rewrite !lookup_empty. by case_decide. }
  cbn zeta in *. destruct IH as [IHp IHt].
  rewrite Metrics_record_all_snoc, Metrics_record_processed, Metrics_record_total_ms.
  unfold calls_of in *. rewrite filter_app.
  destruct (decide (c.1.1.1 = name)) as [Heq|Hne].
  - rewrite filter_cons_True by done. rewrite filter_nil.
    rewrite Heq, !lookup_insert_eq, IHp, IHt.
    destruct (decide (filter _ calls ++ [c] = [])) as [Habs|_];
      [by destruct (filter _ calls)|].
    unfold cumulative at 2. rewrite foldl_app. simpl.
    rewrite length_app. simpl.
    destruct (decide (filter _ calls = [])) as [->|_]; simpl.
    + done.
    + split; [f_equal; lia | done].
  - rewrite filter_cons_False by done. rewrite filter_nil, app_nil_r.
    by rewrite !lookup_insert_ne.
Qed.

(** C10.  [avg_ms] returns a float for every name and every state of the
    tables: [0.0] when the name has no recorded call, without a division and
    without a change of the tables, and else the stored total over the stored
    count, rounded to two digits; after any sequence of [record] calls on a
    new [Metrics] these are the sum of the recorded durations of the name and
    the number of its calls, and [avg_ms] leaves the tables as they are. *)
Theorem avg_ms_total (name : string) :
  (∀ m : Metrics,
     let count := default 0 (processed m !! name) in
     (count = 0 → avg_ms name m = (Return f_zero, m)) ∧
     (count ≠ 0 →
        (avg_ms name m).1
          = Return (f_round (f_div_int (default f_zero (total_ms m !! name)) count) 2))) ∧
  (∀ calls,
     let m := Metrics_record_all calls Metrics_init in
     let mine := calls_of name calls in
     avg_ms name m
       = (Return (if decide (mine = []) then f_zero
                  else f_round (f_div_int (cumulative mine) (Z.of_nat (length mine))) 2),
          m)).
Proof.
  split.
  - intros m count. unfold avg_ms. fold count. split; intros Hc.
    + by destruct (decide (count = 0)).
    + destruct (decide (count = 0)); [done|]. simpl.
      by rewrite py_truediv_nonzero.
  - intros calls m mine.
    destruct (Metrics_record_all_tables name calls) as [Hp Ht].
    fold m mine in Hp, Ht. unfold avg_ms. rewrite Hp, Ht.
    destruct (decide (mine = [])) as [He|Hne]; simpl; [done|].
    assert (Z.of_nat (length mine) ≠ 0) by (destruct mine; [done | simpl; lia]).
    destruct (decide (Z.of_nat (length mine) = 0)); [done|].
    rewrite py_truediv_nonzero by done. f_equal.
    destruct m as [p e t l]. simpl in *. f_equal.
    apply insert_id. exact Ht.
Qed.

(** ** EventLog *)

Lemma deque_append_length {A} (bound : nat) (x : A) (items : list A) :
  (length items ≤ bound → length (deque_append bound x items) ≤ bound)%nat.
Proof. unfold deque_append. rewrite length_drop, length_app. simpl. lia. Qed.

Lemma EventLog_record_all_snoc calls c (log : EventLog) :
  EventLog_record_all (calls ++ [c]) log
    = EventLog_record (rc_world c) (rc_envelope c) (rc_handler c)
        (rc_duration_ms c) (rc_ok c) (EventLog_record_all calls log).
Proof. unfold EventLog_record_all. by rewrite foldl_app. Qed.

Lemma EventLog_record_all_maxlen calls (log : EventLog) :
  maxlen (EventLog_record_all calls log) = maxlen log.
Proof.
  induction calls as [|c calls IH] using rev_ind; [done|].
  by rewrite EventLog_record_all_snoc.
Qed.

(** The buffer of a log that started empty is the last [maxlen] entries of
    everything recorded, in the order of the calls. *)
Lemma EventLog_buffer_is_suffix (bound : nat) calls :
  let history := entry_of <$> calls in
  _buffer (EventLog_record_all calls {| maxlen := bound; _buffer := [] |})
    = drop (length history - bound) history.
Proof.
  induction calls as [|c calls IH] using rev_ind; [done|].
  cbn zeta in *. rewrite EventLog_record_all_snoc. unfold EventLog_record. simpl.
  rewrite EventLog_record_all_maxlen, IH. simpl.
  rewrite fmap_app. simpl. unfold deque_append. fold (entry_of c).
  rewrite <- drop_app_le by lia.
  rewrite drop_drop. f_equal.
  rewrite length_drop, !length_app. simpl. lia.
Qed.

(** The log never holds more entries than its capacity. *)
Lemma EventLog_capacity (max_size : Z) (log : EventLog) calls :
  EventLog_init max_size = Return log →
  (Z.of_nat (length (_buffer (EventLog_record_all calls log))) ≤ max_size)%Z.
Proof.
  unfold EventLog_init. destruct (decide (max_size < 0)); [done|].
  intros [= <-]. rewrite EventLog_buffer_is_suffix.
  rewrite length_drop. lia.
Qed.

Lemma slice_from_last {A} (n : Z) (items : list A) :
  0 < n → slice_from (- n) items = drop (length items - Z.to_nat n) items.
Proof.
  intros Hn. unfold slice_from.
  destruct (decide (- n < 0)); [|lia]. f_equal. lia.
Qed.

Lemma slice_from_zero {A} (items : list A) : slice_from (- 0) items = items.
Proof.
  unfold slice_from. case_decide; [lia|].
  by replace (Z.to_nat _) with 0%nat by lia.
Qed.

(** For a positive [n], [recent] returns the last [n] of the entries of the
    buffer that pass the filters, in the order of the buffer. *)
Lemma recent_positive (n : Z) (event trace : option string) (log : EventLog) :
  0 < n →
  let matching := filter_by le_trace_id trace (filter_by le_event_type event (_buffer log)) in
  recent n event trace log = drop (length matching - Z.to_nat n) matching ∧
  Z.of_nat (length (recent n event trace log)) ≤ n.
Proof.
  intros Hn matching. unfold recent. fold matching.
  rewrite slice_from_last by done. split; [done|].
  rewrite length_drop. lia.
Qed.

(** [recent(0)] does not return zero entries: the slice [items[-0:]] is the
    whole list. *)
Lemma recent_zero (event trace : option string) (log : EventLog) :
  recent 0 event trace log
    = filter_by le_trace_id trace (filter_by le_event_type event (_buffer log)).
Proof. unfold recent. apply slice_from_zero. Qed.

(** ** publish *)

Lemma queue_put_started (e : Envelope) (b : Bus) (q : list Envelope) :
  _queue b = Some q → queue_put e b = Return (with_queue (Some (q ++ [e])) b).
Proof. intros Hq. unfold queue_put. by rewrite Hq. Qed.

Lemma queue_put_Return (e : Envelope) (b b' : Bus) :
  queue_put e b = Return b' →
  ∃ q, _queue b = Some q ∧ b' = with_queue (Some (q ++ [e])) b.
Proof.
  unfold queue_put. destruct (_queue b) as [q|]; [|done].
  intros [= <-]. by exists q.
Qed.

Lemma queue_put_not_ValueError (e : Envelope) (b : Bus) (m : string) :
  queue_put e b ≠ Raise (ValueError m).
Proof. unfold queue_put. by destruct (_queue b). Qed.

(** C8.  [publish] raises [ValueError] exactly when its first argument is
    neither an envelope nor a string that comes with a payload; whenever it
    returns, the queue has grown by exactly one envelope at its end, the
    given one or the one created from the topic and the payload, and nothing
    else of the bus has changed; and on a bus whose queue exists it returns
    for every other argument. *)
Theorem publish_spec (w : World) (arg : PublishArg) (data : option Struct)
    (source : string) (trace : option string) (user_id : string)
    (extra : option (gmap string string)) (b : Bus) :
  let accepted :=
    (∃ e, arg = ArgEnvelope e) ∨ (∃ t d, arg = ArgStr t ∧ data = Some d) in
  let enqueued (env : Envelope) :=
    arg = ArgEnvelope env ∨
    (∃ t d, arg = ArgStr t ∧ data = Some d ∧
            env = create w t d source trace user_id extra) in
  ((∃ m, publish w arg data source trace user_id extra b = Raise (ValueError m))
     ↔ ¬ accepted) ∧
  (∀ b', publish w arg data source trace user_id extra b = Return b' →
     ∃ q env, _queue b = Some q ∧ enqueued env ∧
              b' = with_queue (Some (q ++ [env])) b) ∧
  (∀ q, _queue b = Some q → accepted →
     ∃ env, enqueued env ∧
            publish w arg data source trace user_id extra b
              = Return (with_queue (Some (q ++ [env])) b)).
Proof.
  intros accepted enqueued. subst accepted enqueued. cbn beta.
  destruct arg as [e|t|]; [|destruct data as [d|]|]; simpl.
  - split; [|split].
    + split.
      * intros [m Hm]. by apply queue_put_not_ValueError in Hm.
      * intros Hn. destruct Hn. left. by exists e.
    + intros b' (q & Hq & ->)%queue_put_Return. exists q, e. eauto.
    + intros q Hq _. exists e. split; [by left|]. by apply queue_put_started.
  - split; [|split].
    + split.
      * intros [m Hm]. by apply queue_put_not_ValueError in Hm.
      * intros Hn. destruct Hn. right. by exists t, d.
    + intros b' (q & Hq & ->)%queue_put_Return. exists q. eexists.
      split; [done|]. split; [|done]. right. by exists t, d.
    + intros q Hq _. eexists. split; [right; by exists t, d|].
      by apply queue_put_started.
  - split; [|split].
    + split; [|by eexists]. intros _ [[e [=]]|(t' & d & _ & [=])].
    + intros b' [=].
    + intros q _ [[e [=]]|(t' & d & _ & [=])].
  - split; [|split].
    + split; [|by eexists]. intros _ [[e [=]]|(t' & d & [=] & _)].
    + intros b' [=].
    + intros q _ [[e [=]]|(t' & d & [=] & _)].
Qed.

(** ** validate_graph *)

Lemma append_length (s t : string) :
  String.length (s +:+ t) = (String.length s + String.length t)%nat.
Proof. induction s as [|a s IH]; simpl; [done | by rewrite IH]. Qed.

Lemma append_inj_l (s1 s2 t : string) : s1 +:+ t = s2 +:+ t → s1 = s2.
Proof.
  revert s2. induction s1 as [|a s1 IH]; intros [|a2 s2] H; simpl in *.
  - done.
  - apply (f_equal String.length) in H. rewrite !append_length in H. simpl in H. lia.
  - apply (f_equal String.length) in H. rewrite !append_length in H. simpl in H. lia.
  - injection H as -> H. f_equal. by apply IH.
Qed.

#[local] Instance dangling_warning_inj : Inj (=) (=) dangling_warning.
Proof.
  intros d1 d2 H. unfold dangling_warning in H.
  apply (inj (String.append "event '")) in H.
  by apply append_inj_l in H.
Qed.

(** [register] appends the handler, with the timeout it ends up with, to the
    list of its topic. *)
Lemma register_subs (h : Handler) (b : Bus) :
  ∃ h', subscribes_to h' = subscribes_to h ∧ publishes h' = publishes h ∧
        class_name h' = class_name h ∧
        _subs (register h b)
          = <[subscribes_to h := default [] (_subs b !! subscribes_to h) ++ [h']]> (_subs b).
Proof.
  unfold register.
  destruct (f_eqb (timeout h) f_thirty && negb (f_eqb (_default_timeout b) f_thirty));
    (eexists; split_and!; [ | | |reflexivity]; reflexivity).
Qed.

Lemma register_subs_nonempty (h : Handler) (b : Bus) :
  subs_nonempty b → subs_nonempty (register h b).
Proof.
  intros Hb t hs. destruct (register_subs h b) as (h' & _ & _ & _ & ->). intros Hl.
  destruct (decide (subscribes_to h = t)) as [<-|Hne].
  - rewrite lookup_insert_eq in Hl. injection Hl as <-.
    by destruct (default [] _).
  - rewrite lookup_insert_ne in Hl by done. by apply Hb in Hl.
Qed.

Lemma Bus_init_subs_nonempty (t : float) (n : Z) (b : Bus) :
  Bus_init t n = Return b → subs_nonempty b.
Proof.
  unfold Bus_init. destruct (EventLog_init n); [|done].
  intros [= <-] k hs. simpl. by rewrite lookup_empty.
Qed.

(** C9.  On a subscription table as [register] builds it, the warnings of
    [validate_graph] are, without repetition, exactly the warnings that name
    a non-empty topic that some handler of the table declares in [publishes]
    and that no handler of the table subscribes to; the bus is unchanged. *)
Theorem validate_graph_spec (b : Bus) :
  subs_nonempty b →
  let warnings := (validate_graph b).1 in
  (∀ d, dangling_warning d ∈ warnings ↔
          d ≠ "" ∧ (∃ t h, subscriber b t h ∧ publishes h = d) ∧
          ¬ (∃ h, subscriber b d h)) ∧
  (∀ x, x ∈ warnings → ∃ d, x = dangling_warning d) ∧
  NoDup warnings ∧
  (validate_graph b).2 = b.
Proof.
  intros Hwf warnings. subst warnings. unfold validate_graph. simpl.
  split; [|split; [|split]].
  - intros d. rewrite list_elem_of_fmap_inj, elem_of_elements, elem_of_difference.
    rewrite !elem_of_list_to_set, list_elem_of_filter, !list_elem_of_fmap.
    split.
    + intros [[Hd (h & -> & Hh)] Hns]. split; [done|].
      apply list_elem_of_join in Hh as (hs & Hh & Hhs).
      apply list_elem_of_fmap in Hhs as ([t hs'] & -> & Hin).
      apply elem_of_map_to_list in Hin. split.
      * exists t, h. split; [|done]. by exists hs'.
      * intros (h2 & hs2 & Hl & _). apply Hns.
        exists (publishes h, hs2). split; [done|]. by apply elem_of_map_to_list.
    + intros (Hd & (t & h & (hs & Hl & Hh) & <-) & Hns). split.
      * split; [done|]. exists h. split; [done|].
        apply list_elem_of_join. exists hs. split; [done|].
        apply list_elem_of_fmap. exists (t, hs). split; [done|].
        by apply elem_of_map_to_list.
      * intros ([t2 hs2] & Heq & Hin). simpl in Heq. subst t2.
        apply elem_of_map_to_list in Hin.
        destruct hs2 as [|h2 hs2]; [by apply Hwf in Hin|].
        apply Hns. exists h2, (h2 :: hs2). split; [done|]. by left.
    + apply dangling_warning_inj.
  - intros x (d & -> & _)%list_elem_of_fmap. by exists d.
  - apply NoDup_fmap_2; [apply _|]. apply NoDup_elements.
  - done.
Qed.

(** ** The waiter table *)

Lemma check_waiters_hit (e : Envelope) (b : Bus) (fid : nat) :
  pending_waiter b (key_of e) fid →
  _check_waiters e b = (true, with_futures (<[fid := Finished e]> (futures b)) b).
Proof. intros [Hw Hf]. unfold _check_waiters. by rewrite Hw, Hf. Qed.

Lemma check_waiters_miss (e : Envelope) (b : Bus) :
  (∀ fid, ¬ pending_waiter b (key_of e) fid) → _check_waiters e b = (false, b).
Proof.
  intros Hn. unfold _check_waiters.
  destruct (_waiters b !! key_of e) as [fid|] eqn:Hw; [|done].
  destruct (futures b !! fid) as [[| |]|] eqn:Hf; simpl; try done.
  by destruct (Hn fid).
Qed.

(** [_check_waiters] answers [True] exactly when it resolved a pending
    waiter of the key with the envelope; otherwise it changes nothing. *)
Lemma check_waiters_cases (e : Envelope) (b : Bus) :
  (∃ fid, pending_waiter b (key_of e) fid ∧
          _check_waiters e b = (true, with_futures (<[fid := Finished e]> (futures b)) b)) ∨
  ((∀ fid, ¬ pending_waiter b (key_of e) fid) ∧ _check_waiters e b = (false, b)).
Proof.
  destruct (_waiters b !! key_of e) as [fid|] eqn:Hw.
  - destruct (futures b !! fid) as [[| |]|] eqn:Hf.
    + left. exists fid. split; [done|]. by apply check_waiters_hit.
    + right. assert (∀ f, ¬ pending_waiter b (key_of e) f) as Hn.
      { intros f [Hw' Hf']. congruence. }
      split; [done|]. by apply check_waiters_miss.
    + right. assert (∀ f, ¬ pending_waiter b (key_of e) f) as Hn.
      { intros f [Hw' Hf']. congruence. }
      split; [done|]. by apply check_waiters_miss.
    + right. assert (∀ f, ¬ pending_waiter b (key_of e) f) as Hn.
      { intros f [Hw' Hf']. congruence. }
      split; [done|]. by apply check_waiters_miss.
  - right. assert (∀ f, ¬ pending_waiter b (key_of e) f) as Hn.
    { intros f [Hw' Hf']. congruence. }
    split; [done|]. by apply check_waiters_miss.
Qed.

(** ** _dispatch *)

(** C1.  When the waiter table holds a pending waiter under the key of the
    envelope, [_dispatch] records the envelope in the event log, resolves
    that future with the envelope and returns: it makes no handler task, so
    no handler and no callback is called, and the queue, the metrics and the
    table of subscribers are as before, whatever the subscribers of the
    topic.  And whenever [_dispatch] does make handler tasks for an envelope,
    no waiter was pending under its key and no future has changed: an
    envelope never both resolves a waiter and goes to the subscribers. *)
Theorem dispatch_waiter_priority (w : World) (tick : nat → World * float)
    (env : Envelope) (b : Bus) :
  (∀ fid, pending_waiter b (key_of env) fid →
     let b' := with_futures (<[fid := Finished env]> (futures b))
                 (with_event_log (EventLog_record w env "" f_zero true (event_log b)) b) in
     _dispatch_begin w env b = (b', []) ∧
     _dispatch w tick env b = (b', Some (Return ())) ∧
     futures b' !! fid = Some (Finished env) ∧
     effects b' = effects b ∧ _queue b' = _queue b ∧
     metrics b' = metrics b ∧ _subs b' = _subs b) ∧
  (∀ b' hs, _dispatch_begin w env b = (b', hs) → hs ≠ [] →
     (∀ fid, ¬ pending_waiter b (key_of env) fid) ∧ futures b' = futures b ∧
     _subs b !! event_type env = Some hs).
Proof.
  split.
  - intros fid Hp b'.
    assert (_dispatch_begin w env b = (b', [])) as Hbegin.
    { unfold _dispatch_begin.
      rewrite (check_waiters_hit env _ fid); [done|].
      destruct Hp as [Hw Hf]. by split. }
    split; [done|]. split.
    { unfold _dispatch. by rewrite Hbegin. }
    subst b'. simpl. by rewrite lookup_insert_eq.
  - intros b' hs Hbegin Hne. unfold _dispatch_begin in Hbegin.
    set (b1 := with_event_log _ b) in Hbegin.
    destruct (check_waiters_cases env b1) as [(fid & Hp & Hc)|[Hn Hc]];
      rewrite Hc in Hbegin; simpl in Hbegin.
    + by injection Hbegin as <- <-.
    + destruct (_subs b !! event_type env) as [l|] eqn:Hl; simpl in Hbegin.
      * destruct l; injection Hbegin as <- <-; [done|]. split; [|done].
        intros fid [Hw Hf]. apply (Hn fid). by split.
      * by injection Hbegin as <- <-.
Qed.

(** ** _run_handler *)

Lemma notify_error_spec (e : Envelope) (b : Bus) :
  _notify_error e b
    = with_effects (effects b ++ ((λ cb, CallbackCalled (cb_id cb) e) <$> _error_callbacks b)) b.
Proof.
  unfold _notify_error. generalize (_error_callbacks b) as cbs. intros cbs.
  revert b. induction cbs as [|cb cbs IH]; intros b; simpl.
  - rewrite app_nil_r. by destruct b.
  - replace (match cb_call cb e with Return _ => _ | Raise _ => _ end)
      with (with_effects (effects b ++ [CallbackCalled (cb_id cb) e]) b)
      by (by destruct (cb_call cb e)).
    rewrite IH. simpl. by rewrite <- app_assoc.
Qed.


Lemma wait_for_in_time {A} (d : float) (o : Outcome A) (t : float) :
  f_ltb d t = true → wait_for (Completes d o) t = o.
Proof. simpl. by intros ->. Qed.


Lemma handle_raises (w : World) (h : Handler) (e : Envelope) (data : PyValue)
    (d : float) (ex : Exn) :
  handler_input h e = Return data →
  process h data (ctx e) = Completes d (Raise ex) →
  handle w h e = Completes d (Raise ex).
Proof. intros Hin Hp. unfold handle. by rewrite Hin, Hp. Qed.

(** What [_run_handler] does once the awaited call has raised an exception
    that is not a [TimeoutError], and once it has raised a [TimeoutError]. *)
Lemma run_handler_raise (w : World) (dt : float) (h : Handler) (e : Envelope)
    (b : Bus) (ex : Exn) :
  invoke w h e = Some (Raise ex) →
  let invoked := with_effects (effects b ++ [HandlerInvoked (class_name h) e]) b in
  _run_handler w dt h e b =
    match ex with
    | TimeoutError _ =>
        let '(b', err) := handler_failed w dt h e
                            ("timeout " +:+ f_repr (timeout h) +:+ "s") "timeout" invoked in
        (b', Some (Some err))
    | _ =>
        let '(b', err) := handler_failed w dt h e (exn_str ex) "handler_error" invoked in
        (b', Some (Some err))
    end.
Proof. intros Hi. unfold _run_handler. rewrite Hi. by destruct ex. Qed.

Lemma handler_failed_spec (w : World) (dt : float) (h : Handler) (e : Envelope)
    (message code : string) (b : Bus) :
  let err := error_from w e message code (class_name h) None in
  let b' := (handler_failed w dt h e message code b).1 in
  (handler_failed w dt h e message code b).2 = err ∧
  errors (metrics b') !! class_name h
    = Some (default 0 (errors (metrics b) !! class_name h) + 1) ∧
  (∀ other, other ≠ class_name h →
     errors (metrics b') !! other = errors (metrics b) !! other) ∧
  processed (metrics b') !! class_name h
    = Some (default 0 (processed (metrics b) !! class_name h) + 1) ∧
  last_error (metrics b') !! class_name h = Some message ∧
  effects b' = effects b ++ ((λ cb, CallbackCalled (cb_id cb) err) <$> _error_callbacks b) ∧
  futures b' = futures b ∧ _waiters b' = _waiters b ∧ _queue b' = _queue b.
Proof.
  unfold handler_failed. rewrite notify_error_spec. simpl.
  split_and!; try done.
  - by rewrite lookup_insert_eq.
  - intros other Hne. by rewrite lookup_insert_ne.
  - by rewrite lookup_insert_eq.
  - by rewrite lookup_insert_eq.
Qed.


Lemma dispatch_result_hit (r : Envelope) (b : Bus) (fid : nat) :
  pending_waiter b (key_of r) fid →
  _dispatch_result (Some r) b
    = Return (with_futures (<[fid := Finished r]> (futures b)) b).
Proof. intros Hp. unfold _dispatch_result. by rewrite (check_waiters_hit r b fid). Qed.

Lemma dispatch_result_miss (r : Envelope) (b : Bus) (q : list Envelope) :
  (∀ fid, ¬ pending_waiter b (key_of r) fid) → _queue b = Some q →
  _dispatch_result (Some r) b = Return (with_queue (Some (q ++ [r])) b).
Proof.
  intros Hn Hq. unfold _dispatch_result. rewrite check_waiters_miss by done.
  by apply queue_put_started.
Qed.

(** On a bus whose queue exists the loop over the results of the handlers
    runs to its end. *)
Lemma dispatch_results_started (rs : list (option Envelope)) (b : Bus) :
  is_Some (_queue b) →
  ∃ b', _dispatch_results rs b = (b', Return ()) ∧ is_Some (_queue b').
Proof.
  revert b. induction rs as [|r rs IH]; intros b [q Hq].
  - by exists b.
  - destruct r as [r|]; [|by apply IH].
    change (_dispatch_results (Some r :: rs) b)
      with (match _dispatch_result (Some r) b with
            | Return b1 => _dispatch_results rs b1
            | Raise e => (b, Raise e)
            end).
    destruct (check_waiters_cases r b) as [(fid & Hp & Hc)|[Hn Hc]].
    + rewrite (dispatch_result_hit r b fid Hp). apply IH. by exists q.
    + rewrite (dispatch_result_miss r b q Hn Hq). apply IH. by eexists.
Qed.

(** The awaited call of [_run_handler] raises what [process] raises: in the
    bus process when [process] of the handler raises before the timeout of
    the handler, in a worker when [process] of the new instance of the class
    raises. *)
Lemma invoke_raises (w : World) (h acting : Handler) (env : Envelope)
    (data : PyValue) (d : float) (ex : Exn) :
  handler_input acting env = Return data →
  process acting data (ctx env) = Completes d (Raise ex) →
  (execution_mode h ≠ "process" ∧ acting = h ∧ f_ltb d (timeout h) = true) ∨
  (execution_mode h = "process" ∧ handler_cls (class_name h) = Return acting) →
  invoke w h env = Some (Raise ex).
Proof.
  intros Hin Hp Hmode. unfold invoke.
  pose proof (handle_raises w acting env data d ex Hin Hp) as Hh.
  destruct Hmode as [(Hm & -> & Hlt)|[Hm Hcls]].
  - destruct (decide (execution_mode h = "process")); [done|].
    rewrite Hh. f_equal. by apply wait_for_in_time.
  - destruct (decide (execution_mode h = "process")); [|done].
    unfold run_task, _executor_run. by rewrite Hcls, Hh.
Qed.

(** A result envelope in the loop over the results of [_dispatch], on a bus
    whose queue exists: it resolves a pending waiter of its key and is not put
    on the queue, or else it is put at the end of the queue; and the loop over
    any list of results ends without an exception. *)
Lemma result_reenters (r : Envelope) (b : Bus) (q : list Envelope) :
  _queue b = Some q →
  (∀ fid, pending_waiter b (key_of r) fid →
     _dispatch_result (Some r) b
       = Return (with_futures (<[fid := Finished r]> (futures b)) b)) ∧
  ((∀ fid, ¬ pending_waiter b (key_of r) fid) →
     _dispatch_result (Some r) b = Return (with_queue (Some (q ++ [r])) b)) ∧
  (∀ rs, ∃ b', _dispatch_results rs b = (b', Return ())).
Proof.
  intros Hq. split_and!.
  - intros fid Hpw. by apply dispatch_result_hit.
  - intros Hn. by apply dispatch_result_miss.
  - intros rs. destruct (dispatch_results_started rs b) as (b3 & H3 & _); eauto.
Qed.

(** Exceptions other than [asyncio.TimeoutError].  For every handler
    invocation in which [process] raises such an exception (in the
    bus process: before the timeout of the handler), [_run_handler] returns
    instead of raising: its result is the envelope [error_from(envelope,
    str(e), code="handler_error")], with the trace id of the envelope, and
    that envelope goes through the loop over the results like any other
    result. *)
Lemma run_handler_exception (w : World) (dt : float) (h acting : Handler)
    (env : Envelope) (b : Bus) (data : PyValue) (d : float) (ex : Exn) :
  handler_input acting env = Return data →
  process acting data (ctx env) = Completes d (Raise ex) →
  (∀ m, ex ≠ TimeoutError m) →
  (execution_mode h ≠ "process" ∧ acting = h ∧ f_ltb d (timeout h) = true) ∨
  (execution_mode h = "process" ∧ handler_cls (class_name h) = Return acting) →
  let err := error_from w env (exn_str ex) "handler_error" (class_name h) None in
  (∃ b', _run_handler w dt h env b = (b', Some (Some err))) ∧
  (err_code <$> error err) = Some "handler_error" ∧
  trace_id err = trace_id env ∧
  (∀ b2 q, _queue b2 = Some q →
     (∀ fid, pending_waiter b2 (key_of err) fid →
        _dispatch_result (Some err) b2
          = Return (with_futures (<[fid := Finished err]> (futures b2)) b2)) ∧
     ((∀ fid, ¬ pending_waiter b2 (key_of err) fid) →
        _dispatch_result (Some err) b2 = Return (with_queue (Some (q ++ [err])) b2)) ∧
     (∀ rs, ∃ b3, _dispatch_results rs b2 = (b3, Return ()))).
Proof.
  intros Hin Hp Hex Hmode err.
  pose proof (invoke_raises w h acting env data d ex Hin Hp Hmode) as Hi.
  split_and!; [|done|done|intros b2 q Hq; by apply result_reenters].
  rewrite (run_handler_raise _ _ _ _ _ _ Hi). cbn zeta.
  set (b0 := with_effects _ b).
  destruct (handler_failed_spec w dt h env (exn_str ex) "handler_error" b0)
    as (Herr & _).
  destruct (handler_failed w dt h env _ "handler_error" b0) as [b' err'] eqn:Hf.
  simpl in Herr. subst err'. exists b'.
  destruct ex; try done. by destruct (Hex msg).
Qed.

(** C3.  The claim fails where [process] itself raises an
    [asyncio.TimeoutError] (in the bus process: before the timeout of the
    handler; in a worker: at any time).  The clause [except
    asyncio.TimeoutError] of [_run_handler], written for the expiry of
    [wait_for], catches it: the error envelope has the code [timeout], not
    [handler_error], and its message is [timeout {handler.timeout}s], not the
    text of the exception.  The rest of the claim holds there: [_run_handler]
    returns instead of raising, the error envelope has the trace id of the
    envelope, and it goes through the loop over the results like any other
    result. *)
Theorem run_handler_inner_timeout (w : World) (dt : float) (h acting : Handler)
    (env : Envelope) (b : Bus) (data : PyValue) (d : float) (m : string) :
  handler_input acting env = Return data →
  process acting data (ctx env) = Completes d (Raise (TimeoutError m)) →
  (execution_mode h ≠ "process" ∧ acting = h ∧ f_ltb d (timeout h) = true) ∨
  (execution_mode h = "process" ∧ handler_cls (class_name h) = Return acting) →
  let text := "timeout " +:+ f_repr (timeout h) +:+ "s" in
  let err := error_from w env text "timeout" (class_name h) None in
  (∃ b', _run_handler w dt h env b = (b', Some (Some err))) ∧
  (err_code <$> error err) = Some "timeout" ∧
  (err_code <$> error err) ≠ Some "handler_error" ∧
  (err_message <$> error err) = Some text ∧
  trace_id err = trace_id env ∧
  (∀ b2 q, _queue b2 = Some q →
     (∀ fid, pending_waiter b2 (key_of err) fid →
        _dispatch_result (Some err) b2
          = Return (with_futures (<[fid := Finished err]> (futures b2)) b2)) ∧
     ((∀ fid, ¬ pending_waiter b2 (key_of err) fid) →
        _dispatch_result (Some err) b2 = Return (with_queue (Some (q ++ [err])) b2)) ∧
     (∀ rs, ∃ b3, _dispatch_results rs b2 = (b3, Return ()))).
Proof.
  intros Hin Hp Hmode text err.
  pose proof (invoke_raises w h acting env data d _ Hin Hp Hmode) as Hi.
  split_and!; [|done|done|done|done|intros b2 q Hq; by apply result_reenters].
  rewrite (run_handler_raise _ _ _ _ _ _ Hi). cbn zeta.
  set (b0 := with_effects _ b).
  destruct (handler_failed_spec w dt h env text "timeout" b0) as (Herr & _).
  fold text.
  destruct (handler_failed w dt h env text "timeout" b0) as [b' err'] eqn:Hf.
  simpl in Herr. subst err'. by exists b'.
Qed.

(** ** request *)


Lemma dispatch_begin_state (w : World) (e : Envelope) (b : Bus) :
  (_dispatch_begin w e b).1
    = (_check_waiters e
         (with_event_log (EventLog_record w e "" f_zero true (event_log b)) b)).2.
Proof.
  unfold _dispatch_begin. destruct (_check_waiters e _) as [[|] b2]; simpl; [done|].
  by destruct (default [] _).
Qed.

Lemma handler_failed_waiters (w : World) (dt : float) (h : Handler) (e : Envelope)
    (message code : string) (b : Bus) :
  futures (handler_failed w dt h e message code b).1 = futures b ∧
  _waiters (handler_failed w dt h e message code b).1 = _waiters b.
Proof. unfold handler_failed. by rewrite notify_error_spec. Qed.

(** [_run_handler] does not touch the waiter table or the futures. *)
Lemma run_handler_waiters (w : World) (dt : float) (h : Handler) (e : Envelope) (b : Bus) :
  futures (_run_handler w dt h e b).1 = futures b ∧
  _waiters (_run_handler w dt h e b).1 = _waiters b.
Proof.
  unfold _run_handler.
  destruct (invoke w h e) as [[[r|]|ex]|]; try done.
  destruct ex;
    match goal with
    | |- context [handler_failed w dt h e ?m ?c ?b0] =>
        pose proof (handler_failed_waiters w dt h e m c b0) as Hfw;
        destruct (handler_failed w dt h e m c b0)
    end; exact Hfw.
Qed.



(** ** stop *)





(** [_check_waiters] and the steps of the bus keep every future of the
    waiter table in the store. *)
Lemma insert_keeps_stored {A} (m : gmap nat A) (i j : nat) (x : A) :
  is_Some (m !! j) → is_Some (<[i := x]> m !! j).
Proof. intros Hj. rewrite lookup_insert. by case_decide. Qed.

Lemma check_waiters_in_store (e : Envelope) (b : Bus) :
  waiters_in_store b → waiters_in_store (_check_waiters e b).2.
Proof.
  intros Hs.
  destruct (check_waiters_cases e b) as [(fid & _ & ->)|[_ ->]]; [|done].
  intros k f Hl. simpl in *. apply insert_keeps_stored. by apply (Hs k).
Qed.

Lemma Bus_init_waiters_in_store (t : float) (n : Z) (b : Bus) :
  Bus_init t n = Return b → waiters_in_store b.
Proof.
  unfold Bus_init. destruct (EventLog_init n); [|done].
  intros [= <-] k f. simpl. by rewrite lookup_empty.
Qed.

Lemma start_begin_waiters_in_store (b : Bus) : waiters_in_store (start_begin b).
Proof. intros k f. simpl. by rewrite lookup_empty. Qed.

Lemma request_begin_waiters_in_store (w : World) (event : string) (data : Struct)
    (response_type : option string) (source : string) (t : option float)
    (user_id : string) (extra : option (gmap string string)) (b : Bus) :
  waiters_in_store b →
  waiters_in_store (request_begin w event data response_type source t user_id extra b).1.
Proof.
  intros Hs. unfold request_begin.
  set (fid := fresh (dom (futures b))). set (b1 := with_waiters _ _).
  assert (waiters_in_store b1) as H1.
  { intros k f. simpl. rewrite lookup_insert. case_decide.
    - intros [= <-]. by rewrite lookup_insert_eq.
    - intros Hl. apply insert_keeps_stored. by apply (Hs k). }
  destruct (queue_put _ b1) as [b2|ex] eqn:Hq; simpl; [|done].
  apply queue_put_Return in Hq as (q & _ & ->). done.
Qed.

Lemma request_end_waiters_in_store (w : World) (rq : PendingRequest) (b : Bus) :
  waiters_in_store b → waiters_in_store (request_end w rq b).1.
Proof.
  intros Hs k f. unfold request_end.
  destruct (futures b !! rq_future rq) as [[|r|]|]; simpl;
    intros [_ Hl]%lookup_delete_Some; try apply insert_keeps_stored; by apply (Hs k).
Qed.

Lemma others_step_waiters_in_store (rq : PendingRequest) (b b' : Bus) :
  others_step rq b b' → waiters_in_store b → waiters_in_store b'.
Proof.
  intros Hstep Hs. destruct Hstep.
  - unfold dequeue in H. destruct (_queue b) as [[|e0 rest]|]; try done.
    by injection H as <- <-.
  - rewrite dispatch_begin_state. by apply check_waiters_in_store.
  - destruct (run_handler_waiters w dt h e b) as [Hf Hw].
    intros k f. rewrite Hf, Hw. apply Hs.
  - unfold _dispatch_result in H0.
    pose proof (check_waiters_in_store r b Hs) as Hc.
    destruct (_check_waiters r b) as [[|] b1]; simpl in *.
    + by injection H0 as <-.
    + apply queue_put_Return in H0 as (q & _ & ->). done.
  - destruct arg as [e|t0|]; [|destruct data as [d|]|]; simpl in H; try done;
      apply queue_put_Return in H as (q & _ & ->); done.
  - by apply request_begin_waiters_in_store.
  - by apply request_end_waiters_in_store.
  - done.
  - done.
Qed.

End Properties.

(** The amended C5 at an envelope with trace id [t1]. *)
Lemma forward_and_error_from_keep_trace_id_witness :
  trace_id (Sample.envelope_of "a.b" "t1") ≠ "" ∧
  trace_id (forward Sample.world (Sample.envelope_of "a.b" "t1") "c.d" "{}" "H")
    = "t1" ∧
  trace_id (error_from Sample.world (Sample.envelope_of "a.b" "t1") "boom" "x" "H" None)
    = "t1".
Proof.
  destruct (forward_and_error_from_keep_trace_id Sample.world
              (Sample.envelope_of "a.b" "t1") "c.d" "{}" "H" "boom" "x" "H" None)
    as [Hf [He _]].
  split; [vm_compute; discriminate|].
  split; [apply Hf; vm_compute; discriminate | exact He].
Defined.

(** C5 as stated fails: forwarding an envelope whose trace id is the empty
    string gives an envelope with another trace id, the fresh one. *)
Lemma forward_empty_trace_id_counterexample :
  trace_id (forward Sample.world (Sample.envelope_of "a.b" "") "c.d" "{}" "H")
    ≠ trace_id (Sample.envelope_of "a.b" "").
Proof. vm_compute. discriminate. Qed.

(** The amended C7 at the handler of the test suite: the payload comes back
    forwarded under [test.result] with the trace id of the envelope. *)
Lemma handle_returns_witness :
  ∃ r, handle Sample.world Sample.echo (Sample.envelope_of "test.event" "t1")
         = Completes (Sample.fl (1 # 1000)) (Return (Some r)) ∧
       event_type r = "test.result" ∧ trace_id r = "t1".
Proof.
  destruct (handle_returns Sample.world Sample.echo (Sample.envelope_of "test.event" "t1")
              (VStruct (Sample.struct_of "[1, 2]"))
              (VStruct (Sample.struct_of "echo:[1, 2]")) (Sample.fl (1 # 1000))
              ltac:(reflexivity) ltac:(reflexivity))
    as (r & Hr & Hfwd & _).
  destruct (Hfwd ltac:(vm_compute; discriminate)) as (-> & _ & _).
  eexists. split; [exact Hr|]. split; reflexivity.
Defined.

(** C7 as stated fails: for an envelope whose trace id is the empty string
    the forwarded envelope does not have the trace id of the envelope. *)
Lemma handle_empty_trace_id_counterexample :
  ∃ r, handle Sample.world Sample.echo (Sample.envelope_of "test.event" "")
         = Completes (Sample.fl (1 # 1000)) (Return (Some r)) ∧
       trace_id r ≠ trace_id (Sample.envelope_of "test.event" "").
Proof. eexists. split; [reflexivity|]. vm_compute. discriminate. Qed.

(** C8 on the started bus of the test suite: publishing a payload under
    [test.event] puts one new envelope of that topic on the queue. *)
Lemma publish_spec_witness :
  ∃ env, event_type env = "test.event" ∧
    publish Sample.world (ArgStr "test.event") (Some (Sample.struct_of "[1, 2]"))
      "" None "" None Sample.started
      = Return (with_queue (Some ([] ++ [env])) Sample.started).
Proof.
  destruct (publish_spec Sample.world (ArgStr "test.event")
              (Some (Sample.struct_of "[1, 2]")) "" None "" None Sample.started)
    as (_ & _ & Hok).
  destruct (Hok [] ltac:(reflexivity)
              ltac:(right; exists "test.event", (Sample.struct_of "[1, 2]"); done))
    as (env & [[=]|(t & d & [= <-] & [= <-] & ->)] & Hp).
  eexists. split; [|exact Hp]. reflexivity.
Defined.

(** C9 on the graph of the example: [A] consumes [x] and announces [y],
    which nobody consumes. *)
Lemma validate_graph_spec_witness :
  subs_nonempty (register Sample.handler_a Sample.new_bus) ∧
  dangling_warning "y" ∈ (validate_graph (register Sample.handler_a Sample.new_bus)).1 ∧
  dangling_warning "x" ∉ (validate_graph (register Sample.handler_a Sample.new_bus)).1.
Proof.
  assert (Hwf : subs_nonempty (register Sample.handler_a Sample.new_bus)).
  { apply register_subs_nonempty. intros t hs. simpl. by rewrite lookup_empty. }
  destruct (validate_graph_spec (register Sample.handler_a Sample.new_bus) Hwf)
    as (Hiff & _).
  split; [exact Hwf|]. split.
  - apply Hiff. split; [discriminate|]. split.
    + exists "x", Sample.handler_a. split; [|reflexivity].
      exists [Sample.handler_a]. split; [reflexivity | by left].
    + intros (h & hs & Hl & _). vm_compute in Hl. discriminate.
  - intros (_ & _ & Hns)%Hiff. apply Hns.
    exists Sample.handler_a, [Sample.handler_a]. split; [reflexivity | by left].
Defined.

(** C1 on the bus of the test suite with a subscriber of [test.result]
    beside the waiting request: the answer resolves the request and [sink]
    is not called. *)
Lemma dispatch_waiter_priority_witness :
  pending_waiter Sample.waiting (key_of Sample.answer) 0 ∧
  subscriber Sample.waiting "test.result" Sample.sink ∧
  ∃ b', _dispatch Sample.world (λ _, (Sample.world, Sample.fl (1 # 1))) Sample.answer
          Sample.waiting = (b', Some (Return ())) ∧
        futures b' !! 0%nat = Some (Finished Sample.answer) ∧
        effects b' = effects Sample.waiting.
Proof.
  assert (Hp : pending_waiter Sample.waiting (key_of Sample.answer) 0).
  { split; vm_compute; reflexivity. }
  split; [exact Hp|]. split.
  { exists [Sample.sink]. split; [vm_compute; reflexivity | by left]. }
  destruct (dispatch_waiter_priority Sample.world (λ _, (Sample.world, Sample.fl (1 # 1)))
              Sample.answer Sample.waiting) as [Hres _].
  destruct (Hres 0%nat Hp) as (_ & Hd & Hf & He & _).
  eexists. split; [exact Hd|]. split; [exact Hf | exact He].
Defined.



(** A handler that raises [RuntimeError("boom")]: the error envelope has
    the code [handler_error] and, with no waiter for it, ends up on the
    queue. *)
Lemma run_handler_exception_at_failing :
  ∃ b' err,
    _run_handler Sample.world (Sample.fl (1 # 1)) Sample.failing
      (Sample.envelope_of "fail.event" "t1") Sample.watched = (b', Some (Some err)) ∧
    (err_code <$> error err) = Some "handler_error" ∧
    trace_id err = "t1" ∧
    _dispatch_result (Some err) Sample.watched
      = Return (with_queue (Some ([] ++ [err])) Sample.watched).
Proof.
  destruct (run_handler_exception Sample.world (Sample.fl (1 # 1)) Sample.failing
              Sample.failing
              (Sample.envelope_of "fail.event" "t1") Sample.watched
              (VEnvelope (Sample.envelope_of "fail.event" "t1"))
              (Sample.fl (1 # 1000)) (OtherException "boom")
              ltac:(reflexivity) ltac:(reflexivity) ltac:(discriminate)
              ltac:(left; split_and!; [discriminate|reflexivity|reflexivity]))
    as ([b' Hr] & Hc & Ht & Hre).
  destruct (Hre Sample.watched [] ltac:(reflexivity)) as (_ & Hq & _).
  eexists b', _. split; [exact Hr|]. split; [exact Hc|]. split; [exact Ht|].
  apply Hq. intros fid [Hw _]. vm_compute in Hw. discriminate.
Defined.

(** C3 fails at a handler whose [process] raises an [asyncio.TimeoutError]
    of its own after a millisecond, with a timeout of 30 seconds: the error
    envelope has the code [timeout] and speaks of 30 seconds. *)
Lemma run_handler_inner_timeout_witness :
  process Sample.inner_timeout (VEnvelope (Sample.envelope_of "inner.event" "t1"))
    (ctx (Sample.envelope_of "inner.event" "t1"))
    = Completes (Sample.fl (1 # 1000)) (Raise (TimeoutError "inner")) ∧
  ∃ b' err,
    _run_handler Sample.world (Sample.fl (1 # 1)) Sample.inner_timeout
      (Sample.envelope_of "inner.event" "t1") Sample.watched = (b', Some (Some err)) ∧
    (err_code <$> error err) = Some "timeout" ∧
    (err_code <$> error err) ≠ Some "handler_error" ∧
    (err_message <$> error err) = Some "timeout 30/1s" ∧
    trace_id err = "t1".
Proof.
  split; [reflexivity|].
  destruct (run_handler_inner_timeout Sample.world (Sample.fl (1 # 1))
              Sample.inner_timeout Sample.inner_timeout
              (Sample.envelope_of "inner.event" "t1") Sample.watched
              (VEnvelope (Sample.envelope_of "inner.event" "t1"))
              (Sample.fl (1 # 1000)) "inner"
              ltac:(reflexivity) ltac:(reflexivity)
              ltac:(left; split_and!; [discriminate|reflexivity|reflexivity]))
    as ([b' Hr] & Hc & Hn & Hm & Ht & _).
  eexists b', _. split; [exact Hr|]. split; [exact Hc|]. split; [exact Hn|].
  split; [exact Hm | exact Ht].
Defined.


(** C6 fails at [recent(0)]: on a log of capacity 200 that holds one entry,
    [recent(0)] returns that entry, one more than the zero entries asked
    for. *)
Lemma recent_zero_returns_everything :
  ∃ log, EventLog_init 200 = Return log ∧
    length (recent 0 None None
              (EventLog_record Sample.world (Sample.envelope_of "test.event" "t1")
                 "" (Sample.fl (0 # 1)) true log)) = 1%nat.
Proof. eexists. split; reflexivity. Qed.

(** ** The scenarios of the test suite *)

(** [test_bus_publish_subscribe] and [test_bus_metrics_and_log]: after one
    published event the handler has one processed call and no error, the log
    holds the event and the forwarded result, both [ok], and the result is on
    the queue. *)
Example test_bus_publish_subscribe :
  ∃ b : @Bus Sample.runtime, Sample.dispatched = Some b ∧
    processed (metrics b) !! "MockHandler" = Some 1 ∧
    errors (metrics b) !! "MockHandler" = None ∧
    Sample.log_view b = [("test.event", true); ("test.result", true)] ∧
    Sample.queue_view b = Some ["test.result"].
Proof. eexists. split; [reflexivity|]. vm_compute. done. Qed.

(** [test_bus_request_response]: the request returns the forwarded result
    of the handler. *)
Example test_bus_request_response :
  ∃ r : @Envelope Sample.runtime, Sample.responded = Return r ∧
    event_type r = "test.result" ∧
    payload r = String.list_byte_of_string "echo:req" ∧
    error r = None.
Proof. eexists. split; [reflexivity|]. vm_compute. done. Qed.

(** The average of three recorded durations of 1, 2 and 4 milliseconds. *)
Example avg_ms_of_three :
  (avg_ms "H" (Metrics_record_all
                 [("H", Sample.fl (1 # 1), true, ""); ("G", Sample.fl (9 # 1), true, "");
                  ("H", Sample.fl (2 # 1), false, "x"); ("H", Sample.fl (4 # 1), true, "")]
                 Metrics_init)).1
    = Return (Sample.fl (233 # 100)) ∧
  (avg_ms "nobody" Metrics_init).1 = Return (Sample.fl (0 # 1)).
Proof. split; reflexivity. Qed.

(** * More properties of the bus and of its callers *)

Section MoreProperties.
Context `{RT : PyRuntime}.
Context {MODS : @Modules RT}.

(** ** The message model *)

Lemma create_trace_id (w : World) (t : string) (d : Struct) (s : string)
    (trace : option string) (u : string) (x : option (gmap string string)) :
  trace_id (create w t d s trace u x) = opt_str_or trace (uuid4_hex16 w).
Proof. reflexivity. Qed.

Lemma opt_str_or_nonempty (x : option string) (y : string) :
  y ≠ "" → opt_str_or x y ≠ "".
Proof.
  intros Hy. destruct x as [x|]; simpl; [|done].
  unfold str_or. by destruct (decide (x = "")).
Qed.

Lemma derived_keeps_trace_and_user (e0 e : Envelope) :
  trace_id e0 ≠ "" → derived e0 e →
  trace_id e = trace_id e0 ∧ ctx_user_id (ctx e) = ctx_user_id (ctx e0).
Proof.
  intros Hne Hd. induction Hd as [|w e t d s Hd [IHt IHu]|w e m c s dt Hd [IHt IHu]].
  - done.
  - split; [|done]. rewrite forward_trace_id, IHt. by apply str_or_nonempty.
  - done.
Qed.

(** X1.  An envelope made by [Envelope.create] has a non-empty trace id
    whenever the fresh id is not empty (the given one when that is not
    empty), and every envelope derived from it by any chain of [forward] and
    [error_from] has the same trace id and the same user id. *)
Theorem created_chain_keeps_trace_id (w : World) (t : string) (d : Struct)
    (s : string) (trace : option string) (u : string)
    (x : option (gmap string string)) (e : Envelope) :
  uuid4_hex16 w ≠ "" →
  derived (create w t d s trace u x) e →
  trace_id e ≠ "" ∧
  trace_id e = opt_str_or trace (uuid4_hex16 w) ∧
  (∀ given, trace = Some given → given ≠ "" → trace_id e = given) ∧
  ctx_user_id (ctx e) = u.
Proof.
  intros Hu Hd.
  assert (trace_id (create w t d s trace u x) ≠ "") as Hne.
  { rewrite create_trace_id. by apply opt_str_or_nonempty. }
  destruct (derived_keeps_trace_and_user _ _ Hne Hd) as [Ht Hus].
  rewrite Ht, Hus, create_trace_id. split_and!.
  - by apply opt_str_or_nonempty.
  - done.
  - intros given -> Hg. simpl. by apply str_or_nonempty.
  - done.
Qed.

(** X2.  When the decoder of a type gives back the struct that was encoded,
    the payload of a created envelope decodes to the struct it was created
    from; a handler with that input type is called with exactly that struct;
    and [error_from] keeps the payload, so the error envelope still decodes
    to it. *)
Theorem payload_round_trip (w w2 : World) (t : string) (d : Struct) (s : string)
    (trace : option string) (u : string) (x : option (gmap string string))
    (typ : list byte → Outcome Struct) (h : Handler) (message code source : string) :
  typ (json_encode d) = Return d →
  let e := create w t d s trace u x in
  decode e typ = Return d ∧
  (input_type h = Some typ → handler_input h e = Return (VStruct d)) ∧
  decode (error_from w2 e message code source None) typ = Return d.
Proof.
  intros Hrt e. unfold decode. simpl. split_and!; try done.
  intros Hin. unfold handler_input. rewrite Hin. simpl. by rewrite Hrt.
Qed.

(** ** EventLog *)

Lemma filter_by_sublist (field : LogEntry → string) (key : option string)
    (items : list LogEntry) :
  filter_by field key items `sublist_of` items.
Proof.
  unfold filter_by. destruct key as [k|]; [|done].
  destruct (decide (k = "")); [done|]. apply sublist_filter.
Qed.

Lemma filter_by_matches (field : LogEntry → string) (key : option string)
    (items : list LogEntry) (e : LogEntry) (k : string) :
  key = Some k → k ≠ "" → e ∈ filter_by field key items → field e = k.
Proof.
  intros -> Hk. unfold filter_by. destruct (decide (k = "")); [done|].
  by intros [? _]%list_elem_of_filter.
Qed.

(** X3.  A log made with a capacity [max_size >= 0] holds, after any
    sequence of [record] calls, exactly the last [max_size] recorded entries
    in the order of the calls: never more than [max_size], and all of them
    while there are no more than [max_size].  A negative capacity is
    refused with [ValueError]. *)
Theorem event_log_keeps_latest (max_size : Z) :
  (0 ≤ max_size →
     ∃ log, EventLog_init max_size = Return log ∧
       ∀ calls : list RecordCall,
         let history := entry_of <$> calls in
         let kept := EventLog_snapshot (EventLog_record_all calls log) in
         kept = drop (length history - Z.to_nat max_size) history ∧
         Z.of_nat (length kept) ≤ max_size ∧
         (Z.of_nat (length history) ≤ max_size → kept = history)) ∧
  (max_size < 0 → ∃ m, EventLog_init max_size = Raise (ValueError m)).
Proof.
  split.
  - intros Hpos. unfold EventLog_init. destruct (decide (max_size < 0)); [lia|].
    eexists. split; [reflexivity|]. intros calls.
    unfold EventLog_snapshot. rewrite EventLog_buffer_is_suffix.
    set (history := entry_of <$> calls). split_and!; [done| |].
    + rewrite length_drop. lia.
    + intros Hle. replace (length history - Z.to_nat max_size)%nat with 0%nat by lia.
      done.
  - intros Hneg. unfold EventLog_init. destruct (decide (max_size < 0)); [|lia].
    by eexists.
Qed.

(** X4.  For [n >= 1], [recent(n, event_type, trace_id)] returns the last
    [n] of the entries of the buffer that pass the filters, in the order of
    the buffer: at most [n] entries, all of them when no more than [n] pass;
    a filter that is [None] or the empty string lets every entry pass, and
    every returned entry has the event type and the trace id of the other
    filters. *)
Theorem recent_returns_last_matching (n : Z) (event trace : option string)
    (log : EventLog) :
  0 < n →
  let matching := filter_by le_trace_id trace (filter_by le_event_type event (_buffer log)) in
  let result := recent n event trace log in
  result = drop (length matching - Z.to_nat n) matching ∧
  length result = Nat.min (Z.to_nat n) (length matching) ∧
  result `suffix_of` matching ∧
  matching `sublist_of` _buffer log ∧
  (∀ e k, e ∈ result → event = Some k → k ≠ "" → le_event_type e = k) ∧
  (∀ e k, e ∈ result → trace = Some k → k ≠ "" → le_trace_id e = k) ∧
  (event = None ∨ event = Some "" → trace = None ∨ trace = Some "" →
     matching = _buffer log).
Proof.
  intros Hn matching result.
  destruct (recent_positive n event trace log Hn) as [Hr _].
  fold matching result in Hr.
  assert (result `suffix_of` matching) as Hsuf.
  { rewrite Hr. apply suffix_drop. }
  assert (∀ e, e ∈ result → e ∈ matching) as Hin.
  { intros e He. destruct Hsuf as [pre ->]. apply elem_of_app. by right. }
  split_and!.
  - done.
  - rewrite Hr, length_drop. lia.
  - done.
  - subst matching. etrans; apply filter_by_sublist.
  - intros e k He Hev Hk. apply Hin in He. subst matching.
    assert (e ∈ filter_by le_event_type event (_buffer log)) as He'.
    { by apply (sublist_subseteq _ _ (filter_by_sublist le_trace_id trace _)). }
    by eapply filter_by_matches.
  - intros e k He Htr Hk. apply Hin in He. subst matching.
    by eapply filter_by_matches.
  - intros [->| ->] [->| ->]; reflexivity.
Qed.

Lemma slice_from_nonnegative {A} (k : Z) (items : list A) :
  0 ≤ k → slice_from k items = drop (Z.to_nat k) items.
Proof.
  intros Hk. unfold slice_from. case_decide; [lia|].
  destruct (decide (k ≤ Z.of_nat (length items))).
  - f_equal. lia.
  - rewrite !drop_ge by lia. done.
Qed.

(** X5.  For [n <= 0], [recent(n, ...)] does not return the last [n]
    entries: it returns the entries that pass the filters without the first
    [-n] of them, so [recent(0)] returns all of them. *)
Theorem recent_nonpositive_drops_front (n : Z) (event trace : option string)
    (log : EventLog) :
  n ≤ 0 →
  let matching := filter_by le_trace_id trace (filter_by le_event_type event (_buffer log)) in
  recent n event trace log = drop (Z.to_nat (- n)) matching ∧
  (n = 0 → recent n event trace log = matching).
Proof.
  intros Hn matching. unfold recent. fold matching.
  rewrite slice_from_nonnegative by lia. split; [done|].
  intros ->. done.
Qed.

(** ** Metrics *)

Lemma failures_of_snoc (name : string) calls (c : string * float * bool * string) :
  failures_of name (calls ++ [c])
    = failures_of name calls ++
        (if decide (c.1.1.1 = name) then if c.1.2 then [] else [c] else []).
Proof.
  unfold failures_of, calls_of. rewrite !filter_app. f_equal.
  destruct (decide (c.1.1.1 = name)) as [Heq|Hne].
  - rewrite (filter_cons_True (λ c, c.1.1.1 = name)) by done. rewrite filter_nil.
    destruct (c.1.2) eqn:Hok.
    + rewrite filter_cons_False; [done|]. by rewrite Hok.
    + by rewrite filter_cons_True.
  - by rewrite (filter_cons_False (λ c, c.1.1.1 = name)).
Qed.

(** The error tables after any sequence of calls on a new [Metrics]. *)
Lemma Metrics_record_all_errors (name : string) calls :
  let m := Metrics_record_all calls Metrics_init in
  let failed := failures_of name calls in
  errors m !! name
    = (if decide (failed = []) then None else Some (Z.of_nat (length failed))) ∧
  last_error m !! name = (λ c, c.2) <$> last failed.
Proof.
  induction calls as [|c calls IH] using rev_ind.
  { cbn. rewrite !lookup_empty. by case_decide. }
  cbn zeta in *. destruct IH as [IHe IHl].
  rewrite Metrics_record_all_snoc, failures_of_snoc.
  set (m := Metrics_record_all calls Metrics_init) in *.
  set (failed := failures_of name calls) in *.
  unfold Metrics_record.
  destruct (decide (c.1.1.1 = name)) as [Heq|Hne]; destruct (c.1.2) eqn:Hok; simpl.
  - by rewrite app_nil_r.
  - rewrite Heq, !lookup_insert_eq, IHe, last_snoc, length_app. simpl.
    destruct (decide (failed ++ [c] = [])) as [Habs|_]; [by destruct failed|].
    split; [|done]. destruct (decide (failed = [])) as [->|_]; simpl; f_equal; lia.
  - by rewrite app_nil_r.
  - rewrite app_nil_r, !lookup_insert_ne by done. done.
Qed.

(** X6.  After any sequence of [record] calls on a new [Metrics], the
    counters of a handler name are the number of calls that name it and the
    number of those that reported a failure, so the error count never
    exceeds the processed count; [last_error] is the error text of the last
    failed call of the name and is absent while none failed; a name without
    calls is in no table. *)
Theorem metrics_count_calls (name : string) (calls : list (string * float * bool * string)) :
  let m := Metrics_record_all calls Metrics_init in
  default 0 (processed m !! name) = Z.of_nat (length (calls_of name calls)) ∧
  default 0 (errors m !! name) = Z.of_nat (length (failures_of name calls)) ∧
  default 0 (errors m !! name) ≤ default 0 (processed m !! name) ∧
  last_error m !! name = (λ c, c.2) <$> last (failures_of name calls) ∧
  (calls_of name calls = [] →
     processed m !! name = None ∧ errors m !! name = None ∧
     total_ms m !! name = None ∧ last_error m !! name = None).
Proof.
  intros m.
  destruct (Metrics_record_all_tables name calls) as [Hp Ht].
  destruct (Metrics_record_all_errors name calls) as [He Hl].
  fold m in Hp, Ht, He, Hl.
  assert (default 0 (processed m !! name) = Z.of_nat (length (calls_of name calls))) as Hpc.
  { rewrite Hp. by destruct (decide (calls_of name calls = [])) as [->|_]. }
  assert (default 0 (errors m !! name) = Z.of_nat (length (failures_of name calls))) as Hec.
  { rewrite He. by destruct (decide (failures_of name calls = [])) as [->|_]. }
  split_and!; [done|done| |done|].
  - rewrite Hpc, Hec. unfold failures_of.
    pose proof (length_filter (λ c : string * float * bool * string, c.1.2 = false)
                  (calls_of name calls)). lia.
  - intros Hnone. rewrite Hp, Ht, He, Hl. unfold failures_of. rewrite Hnone.
    rewrite filter_nil. simpl. repeat case_decide; done.
Qed.

Lemma avg_ms_replayed (name : string) calls :
  let m := Metrics_record_all calls Metrics_init in
  let mine := calls_of name calls in
  mine ≠ [] →
  avg_ms name m
    = (Return (f_round (f_div_int (cumulative mine) (Z.of_nat (length mine))) 2), m).
Proof.
  intros m mine Hne.
  destruct (Metrics_record_all_tables name calls) as [Hp Ht].
  fold m mine in Hp, Ht. unfold avg_ms. rewrite Hp, Ht.
  destruct (decide (mine = [])) as [|_]; [done|]. simpl.
  assert (Z.of_nat (length mine) ≠ 0) by (destruct mine; [done | simpl; lia]).
  destruct (decide (Z.of_nat (length mine) = 0)); [done|].
  rewrite py_truediv_nonzero by done. f_equal.
  destruct m as [p e t l]. simpl in *. f_equal. by apply insert_id.
Qed.

(** The loop of [snapshot] over a list of names whose average leaves the
    tables alone. *)
Lemma snapshot_turns (m : Metrics) (avg : string → float)
    (l : list (string * Z)) (acc : gmap string MetricsEntry) :
  (∀ name count, (name, count) ∈ l → avg_ms name m = (Return (avg name), m)) →
  foldl snapshot_turn (Return acc, m) l
    = (Return (foldl (λ r item,
                        <[item.1 := {| me_processed := item.2;
                                       me_errors := default 0 (errors m !! item.1);
                                       me_avg_ms := avg item.1;
                                       me_last_error := last_error m !! item.1 |}]> r)
                 acc l), m).
Proof.
  revert acc. induction l as [|[name count] l IH]; intros acc Havg; [done|].
  simpl. rewrite (Havg name count) by by left. simpl.
  apply IH. intros n c Hin. apply (Havg n c). by right.
Qed.

Lemma foldl_insert_lookup {A B} (f : string → A → B) (l : list (string * A)) (name : string) :
  NoDup (l.*1) →
  foldl (λ r item, <[item.1 := f item.1 item.2]> r) (∅ : gmap string B) l !! name
    = f name <$> (list_to_map l : gmap string A) !! name.
Proof.
  induction l as [|[n c] l IH] using rev_ind; intros Hnd.
  { simpl. by rewrite !lookup_empty. }
  rewrite fmap_app in Hnd. apply NoDup_app in Hnd as (Hnd & Hfresh & _).
  rewrite foldl_app. simpl. rewrite list_to_map_app. simpl.
  assert ((list_to_map l : gmap string A) !! n = None) as Hn.
  { apply not_elem_of_list_to_map. intros Hin. apply (Hfresh n Hin). by left. }
  destruct (decide (n = name)) as [->|Hne].
  - rewrite lookup_insert_eq, lookup_union_r by done. by rewrite lookup_insert_eq.
  - rewrite lookup_insert_ne by done. rewrite IH by done.
    rewrite lookup_union_l; [done|]. by rewrite lookup_insert_ne.
Qed.

(** X7.  After any sequence of [record] calls on a new [Metrics],
    [snapshot] returns an entry for exactly the names that have calls: the
    number of the calls, the number of the failed ones (zero when none
    failed), the average of [avg_ms], and [last_error] only when a call
    failed; and it leaves the tables as they were. *)
Theorem metrics_snapshot_lists_recorded (calls : list (string * float * bool * string)) :
  let m := Metrics_record_all calls Metrics_init in
  ∃ result, Metrics_snapshot m = (Return result, m) ∧
    ∀ name,
      let mine := calls_of name calls in
      let failed := failures_of name calls in
      result !! name =
        if decide (mine = []) then None
        else Some {| me_processed := Z.of_nat (length mine);
                     me_errors := Z.of_nat (length failed);
                     me_avg_ms :=
                       f_round (f_div_int (cumulative mine) (Z.of_nat (length mine))) 2;
                     me_last_error := (λ c, c.2) <$> last failed |}.
Proof.
  intros m.
  set (avg := λ name,
         f_round (f_div_int (cumulative (calls_of name calls))
                    (Z.of_nat (length (calls_of name calls)))) 2).
  eexists. split.
  - unfold Metrics_snapshot. apply (snapshot_turns m avg).
    intros name count Hin%elem_of_map_to_list.
    apply (avg_ms_replayed name calls).
    intros Hnone. destruct (Metrics_record_all_tables name calls) as [Hp _].
    fold m in Hp. rewrite Hp, Hnone in Hin. by case_decide.
  - intros name mine failed.
    rewrite (foldl_insert_lookup
               (λ n c, {| me_processed := c; me_errors := default 0 (errors m !! n);
                          me_avg_ms := avg n; me_last_error := last_error m !! n |}))
      by apply NoDup_fst_map_to_list.
    rewrite list_to_map_to_list.
    destruct (Metrics_record_all_tables name calls) as [Hp _].
    destruct (Metrics_record_all_errors name calls) as [He Hl].
    fold m mine failed in Hp, He, Hl. rewrite Hp.
    destruct (decide (mine = [])) as [|_]; [done|]. simpl.
    rewrite He, Hl. by destruct (decide (failed = [])) as [->|_].
Qed.

(** ** register and on_error *)

Lemma register_stores (h : Handler) (b : Bus) :
  register h b
    = with_subs (<[subscribes_to h :=
                     default [] (_subs b !! subscribes_to h)
                       ++ [with_bus_timeout (_default_timeout b) h]]> (_subs b)) b.
Proof.
  unfold register, with_bus_timeout.
  by destruct (f_eqb (timeout h) f_thirty && negb (f_eqb (_default_timeout b) f_thirty)).
Qed.

Lemma with_bus_timeout_topic (t : float) (h : Handler) :
  subscribes_to (with_bus_timeout t h) = subscribes_to h ∧
  publishes (with_bus_timeout t h) = publishes h ∧
  class_name (with_bus_timeout t h) = class_name h ∧
  execution_mode (with_bus_timeout t h) = execution_mode h.
Proof.
  unfold with_bus_timeout.
  by destruct (f_eqb (timeout h) f_thirty && negb (f_eqb t f_thirty)).
Qed.

Lemma register_all_snoc (hs : list Handler) (h : Handler) (b : Bus) :
  register_all (hs ++ [h]) b = register h (register_all hs b).
Proof. unfold register_all. by rewrite foldl_app. Qed.

Lemma register_all_frame (hs : list Handler) (b : Bus) :
  _default_timeout (register_all hs b) = _default_timeout b ∧
  _queue (register_all hs b) = _queue b ∧
  _waiters (register_all hs b) = _waiters b ∧
  futures (register_all hs b) = futures b ∧
  metrics (register_all hs b) = metrics b ∧
  _error_callbacks (register_all hs b) = _error_callbacks b.
Proof.
  induction hs as [|h hs IH] using rev_ind; [done|].
  rewrite register_all_snoc, register_stores. simpl. exact IH.
Qed.

(** X8.  After [register] was called for a list of handlers, the subscribers
    of a topic are those the topic had before followed by the registered
    handlers that subscribe to it, in the order of registration; each is
    stored with the timeout of the bus when it still has the class default
    of 30 seconds and the bus was made with another timeout, and with its own
    timeout otherwise; nothing but the subscription table changes. *)
Theorem register_all_subscribers (hs : list Handler) (b : Bus) (t : string) :
  let b' := register_all hs b in
  let stored := with_bus_timeout (_default_timeout b) in
  default [] (_subs b' !! t)
    = default [] (_subs b !! t) ++ (stored <$> filter (λ h, subscribes_to h = t) hs) ∧
  (∀ h, timeout (stored h)
        = if f_eqb (timeout h) f_thirty && negb (f_eqb (_default_timeout b) f_thirty)
          then _default_timeout b else timeout h) ∧
  (∀ h, subscribes_to (stored h) = subscribes_to h ∧ publishes (stored h) = publishes h ∧
        class_name (stored h) = class_name h ∧
        execution_mode (stored h) = execution_mode h) ∧
  _queue b' = _queue b ∧ _waiters b' = _waiters b ∧ futures b' = futures b ∧
  metrics b' = metrics b ∧ _error_callbacks b' = _error_callbacks b.
Proof.
  intros b' stored. split_and!.
  - subst b'. induction hs as [|h hs IH] using rev_ind.
    { simpl. by rewrite app_nil_r. }
    rewrite register_all_snoc, register_stores. simpl.
    destruct (register_all_frame hs b) as (-> & _).
    rewrite filter_app, fmap_app.
    destruct (decide (subscribes_to h = t)) as [Heq|Hne].
    + rewrite filter_cons_True by done. rewrite filter_nil.
      rewrite Heq, lookup_insert_eq. simpl. rewrite IH. by rewrite <- app_assoc.
    + rewrite filter_cons_False by done. rewrite filter_nil.
      rewrite lookup_insert_ne by done. simpl. by rewrite app_nil_r.
  - intros h. unfold stored, with_bus_timeout.
    by destruct (f_eqb (timeout h) f_thirty && negb (f_eqb (_default_timeout b) f_thirty)).
  - intros h. apply with_bus_timeout_topic.
  - apply (register_all_frame hs b).
  - apply (register_all_frame hs b).
  - apply (register_all_frame hs b).
  - apply (register_all_frame hs b).
  - apply (register_all_frame hs b).
Qed.

Lemma on_error_all_callbacks (cbs : list Callback) (b : Bus) :
  on_error_all cbs b = with_error_callbacks (_error_callbacks b ++ cbs) b.
Proof.
  revert b. induction cbs as [|cb cbs IH]; intros b; simpl.
  - rewrite app_nil_r. by destruct b.
  - unfold on_error_all in *. simpl. rewrite IH. unfold on_error. simpl.
    by rewrite <- app_assoc.
Qed.

Lemma callback_calls_app (l k : list Effect) :
  callback_calls (l ++ k) = callback_calls l ++ callback_calls k.
Proof. apply omap_app. Qed.

Lemma handler_calls_app (l k : list Effect) :
  handler_calls (l ++ k) = handler_calls l ++ handler_calls k.
Proof. apply omap_app. Qed.

Lemma callback_calls_of_callbacks (e : Envelope) (cbs : list Callback) :
  callback_calls ((λ cb, CallbackCalled (cb_id cb) e) <$> cbs) = (λ cb, (cb_id cb, e)) <$> cbs ∧
  handler_calls ((λ cb, CallbackCalled (cb_id cb) e) <$> cbs) = [].
Proof.
  induction cbs as [|cb cbs [IH1 IH2]]; [done|].
  split; [|exact IH2].
  change (callback_calls ((λ cb, CallbackCalled (cb_id cb) e) <$> cb :: cbs))
    with ((cb_id cb, e) :: callback_calls ((λ cb, CallbackCalled (cb_id cb) e) <$> cbs)).
  by rewrite IH1.
Qed.

(** X9.  [_notify_error] calls every callback registered with [on_error],
    once each and in the order of registration, with the envelope, also
    after one of them raised; it calls no handler and changes nothing else of
    the bus. *)
Theorem notify_error_calls_every_callback (cbs : list Callback) (e : Envelope)
    (b : Bus) :
  let b' := _notify_error e (on_error_all cbs b) in
  callback_calls (effects b')
    = callback_calls (effects b) ++ ((λ cb, (cb_id cb, e)) <$> (_error_callbacks b ++ cbs)) ∧
  handler_calls (effects b') = handler_calls (effects b) ∧
  metrics b' = metrics b ∧ event_log b' = event_log b ∧ _queue b' = _queue b ∧
  futures b' = futures b ∧ _waiters b' = _waiters b ∧ _subs b' = _subs b.
Proof.
  intros b'. subst b'. rewrite notify_error_spec, on_error_all_callbacks. simpl.
  destruct (callback_calls_of_callbacks e (_error_callbacks b ++ cbs)) as [Hc Hh].
  rewrite callback_calls_app, handler_calls_app, Hc, Hh, app_nil_r. done.
Qed.

(** ** _run_handler and _dispatch *)

Lemma deque_append_last {A} (bound : nat) (x : A) (items : list A) :
  (1 ≤ bound)%nat → last (deque_append bound x items) = Some x.
Proof.
  intros Hb. unfold deque_append. rewrite length_app. simpl.
  rewrite drop_app_le by lia. apply last_snoc.
Qed.

Lemma handler_failed_calls (w : World) (dt : float) (h : Handler) (e : Envelope)
    (message code : string) (b : Bus) :
  let b' := (handler_failed w dt h e message code b).1 in
  handler_calls (effects b') = handler_calls (effects b) ∧
  _queue b' = _queue b ∧ _subs b' = _subs b ∧
  processed (metrics b')
    = <[class_name h := default 0 (processed (metrics b) !! class_name h) + 1]>
        (processed (metrics b)).
Proof.
  unfold handler_failed. rewrite notify_error_spec. simpl.
  rewrite handler_calls_app.
  destruct (callback_calls_of_callbacks
              (error_from w e message code (class_name h) None) (_error_callbacks b))
    as [_ ->].
  by rewrite app_nil_r.
Qed.

(** [_run_handler] calls the handler once and no other handler, and leaves
    the queue and the subscription table alone; when the awaited call comes
    back, the processed count of the handler goes up by one. *)
Lemma run_handler_calls (w : World) (dt : float) (h : Handler) (e : Envelope) (b : Bus) :
  let b' := (_run_handler w dt h e b).1 in
  handler_calls (effects b') = handler_calls (effects b) ++ [(class_name h, e)] ∧
  _queue b' = _queue b ∧ _subs b' = _subs b ∧
  (is_Some (invoke w h e) →
     is_Some (_run_handler w dt h e b).2 ∧
     processed (metrics b')
       = <[class_name h := default 0 (processed (metrics b) !! class_name h) + 1]>
           (processed (metrics b))).
Proof.
  unfold _run_handler.
  set (b0 := with_effects (effects b ++ [HandlerInvoked (class_name h) e]) b).
  assert (handler_calls (effects b0) = handler_calls (effects b) ++ [(class_name h, e)])
    as H0 by (subst b0; simpl; by rewrite handler_calls_app).
  destruct (invoke w h e) as [[[r|]|ex]|]; [simpl; simpl | simpl | | simpl].
  - split_and!; try done; intros _; (split; [by eexists|]);
      by rewrite Metrics_record_processed.
  - split_and!; try done; intros _; (split; [by eexists|]);
      by rewrite Metrics_record_processed.
  - assert (∀ message code,
             let r := handler_failed w dt h e message code b0 in
             handler_calls (effects r.1) = handler_calls (effects b) ++ [(class_name h, e)] ∧
             _queue r.1 = _queue b ∧ _subs r.1 = _subs b ∧
             processed (metrics r.1)
               = <[class_name h := default 0 (processed (metrics b) !! class_name h) + 1]>
                   (processed (metrics b))) as Hf.
    { intros message code.
      destruct (handler_failed_calls w dt h e message code b0) as (Hc & Hq & Hs & Hp).
      cbn zeta. by rewrite Hc, Hq, Hs, Hp, H0. }
    destruct ex;
      match goal with
      | |- context [handler_failed w dt h e ?m ?c b0] =>
          specialize (Hf m c); cbn zeta in Hf;
          destruct (handler_failed w dt h e m c b0) as [b1 err]
      end; simpl in *; destruct Hf as (Hc & Hq & Hs & Hp);
      (split_and!; try done; intros _; split; try done; by eexists).
  - split_and!; try done; by intros [? [=]].
Qed.

Lemma invoke_in_process (w : World) (h : Handler) (e : Envelope) :
  execution_mode h ≠ "process" → is_Some (invoke w h e).
Proof. intros Hm. unfold invoke. destruct (decide _); [done | by eexists]. Qed.

Lemma gather_in_process (tick : nat → World * float) (i : nat) (hs : list Handler)
    (e : Envelope) (b : Bus) :
  Forall (λ h, execution_mode h ≠ "process") hs →
  let r := gather tick i hs e b in
  is_Some r.2 ∧
  handler_calls (effects r.1)
    = handler_calls (effects b) ++ ((λ h, (class_name h, e)) <$> hs) ∧
  (∀ name, default 0 (processed (metrics r.1) !! name)
           = default 0 (processed (metrics b) !! name)
             + Z.of_nat (length (filter (λ h, class_name h = name) hs))) ∧
  _queue r.1 = _queue b.
Proof.
  revert i b. induction hs as [|h hs IH]; intros i b Hall.
  { simpl. split_and!; [by eexists| by rewrite app_nil_r | intros; lia | done]. }
  apply Forall_cons in Hall as [Hh Hall]. simpl.
  destruct (run_handler_calls (tick i).1 (tick i).2 h e b) as (Hc & Hq & _ & Hret).
  destruct (Hret (invoke_in_process _ h e Hh)) as [[r Hr] Hp].
  destruct (_run_handler (tick i).1 (tick i).2 h e b) as [b1 r1]. simpl in *. subst r1.
  specialize (IH (S i) b1 Hall). cbn zeta in IH.
  destruct (gather tick (S i) hs e b1) as [b2 rs]. simpl in *.
  destruct IH as ([rs' ->] & IHc & IHp & IHq). split_and!.
  - by eexists.
  - rewrite IHc, Hc. by rewrite <- app_assoc.
  - intros name. rewrite IHp, Hp.
    destruct (decide (class_name h = name)) as [Heq|Hne].
    + rewrite filter_cons_True by done. rewrite Heq, lookup_insert_eq. simpl. lia.
    + rewrite filter_cons_False by done. rewrite lookup_insert_ne by done. lia.
  - by rewrite IHq.
Qed.

Lemma dispatch_results_frame (rs : list (option Envelope)) (b : Bus) :
  effects (_dispatch_results rs b).1 = effects b ∧
  metrics (_dispatch_results rs b).1 = metrics b.
Proof.
  revert b. induction rs as [|r rs IH]; intros b; [done|].
  destruct r as [r|]; [|apply IH].
  change (_dispatch_results (Some r :: rs) b)
    with (match _dispatch_result (Some r) b with
          | Return b1 => _dispatch_results rs b1
          | Raise e => (b, Raise e)
          end).
  unfold _dispatch_result.
  destruct (check_waiters_cases r b) as [(fid & _ & ->)|[_ ->]]; simpl.
  - apply (IH (with_futures _ b)).
  - unfold queue_put. destruct (_queue b) as [q|]; [|done].
    apply (IH (with_queue _ b)).
Qed.

(** X10.  [_dispatch] of an envelope for which no waiter is pending, on a
    bus whose queue exists and whose subscribers of the topic all run in the
    bus process: the envelope is recorded in the event log first, every
    subscriber of the topic is invoked exactly once with the envelope, in the
    order of registration, and no other handler is; the processed count of
    every handler name goes up by the number of subscribers of that name; and
    the dispatch ends without an exception.  With no subscriber, nothing but
    the event log changes. *)
Theorem dispatch_fans_out (w : World) (tick : nat → World * float) (env : Envelope)
    (b : Bus) (hs : list Handler) (q : list Envelope) :
  (∀ fid, ¬ pending_waiter b (key_of env) fid) →
  default [] (_subs b !! event_type env) = hs →
  Forall (λ h, execution_mode h ≠ "process") hs →
  _queue b = Some q →
  let logged := with_event_log (EventLog_record w env "" f_zero true (event_log b)) b in
  let b' := (_dispatch w tick env b).1 in
  (_dispatch_begin w env b).1 = logged ∧
  (_dispatch w tick env b).2 = Some (Return ()) ∧
  handler_calls (effects b')
    = handler_calls (effects b) ++ ((λ h, (class_name h, env)) <$> hs) ∧
  (∀ name, default 0 (processed (metrics b') !! name)
           = default 0 (processed (metrics b) !! name)
             + Z.of_nat (length (filter (λ h, class_name h = name) hs))) ∧
  (hs = [] → b' = logged).
Proof.
  intros Hnone Hsubs Hall Hq logged b'.
  assert (_check_waiters env logged = (false, logged)) as Hcheck.
  { apply check_waiters_miss. intros fid [Hw Hf]. apply (Hnone fid). by split. }
  assert (_dispatch_begin w env b = (logged, hs)) as Hbegin.
  { unfold _dispatch_begin. fold logged. rewrite Hcheck. simpl.
    change (_subs logged) with (_subs b). rewrite Hsubs. by destruct hs. }
  subst b'. unfold _dispatch. rewrite Hbegin.
  destruct hs as [|h hs'] eqn:Hhs.
  { simpl. split_and!; try done; [by rewrite app_nil_r | intros; lia]. }
  rewrite <- Hhs in *. simpl.
  destruct (gather_in_process tick 0 hs env logged Hall) as ([rs Hrs] & Hc & Hp & Hgq).
  replace (match hs with [] => (logged, Some (Return ())) | _ :: _ => _ end)
    with (let '(self2, results) := gather tick 0 hs env logged in
          match results with
          | Some rs => let '(self3, o) := _dispatch_results rs self2 in (self3, Some o)
          | None => (self2, None)
          end) by (by rewrite Hhs).
  destruct (gather tick 0 hs env logged) as [b2 results]. simpl in *. subst results.
  destruct (dispatch_results_started rs b2) as (b3 & H3 & _).
  { rewrite Hgq. by eexists. }
  destruct (dispatch_results_frame rs b2) as [He Hm].
  rewrite H3 in *. simpl in *. split_and!; try done.
  - by rewrite He.
  - intros name. by rewrite Hm.
  - by rewrite Hhs.
Qed.

(** X11.  A handler that runs in the bus process and whose [process] returns
    a value before the timeout: [_run_handler] returns what [handle] makes of
    the value; the processed count of the handler goes up by one and the
    measured time is added to its total; the error count, the last error, the
    futures, the waiter table and the queue stay; no callback is called; and
    the event log gets an entry exactly when there is a result envelope. *)
Theorem run_handler_success (w : World) (dt : float) (h : Handler) (env : Envelope)
    (b : Bus) (data v : PyValue) (d : float) :
  execution_mode h ≠ "process" →
  handler_input h env = Return data →
  process h data (ctx env) = Completes d (Return v) →
  f_ltb d (timeout h) = true →
  let name := class_name h in
  let result := handle_result w h env v in
  let b' := (_run_handler w dt h env b).1 in
  (_run_handler w dt h env b).2 = Some result ∧
  processed (metrics b') !! name = Some (default 0 (processed (metrics b) !! name) + 1) ∧
  total_ms (metrics b') !! name
    = Some (f_add (default f_zero (total_ms (metrics b) !! name)) dt) ∧
  errors (metrics b') = errors (metrics b) ∧
  last_error (metrics b') = last_error (metrics b) ∧
  callback_calls (effects b') = callback_calls (effects b) ∧
  futures b' = futures b ∧ _waiters b' = _waiters b ∧ _queue b' = _queue b ∧
  event_log b' = match result with
                 | Some r => EventLog_record w r name dt true (event_log b)
                 | None => event_log b
                 end.
Proof.
  intros Hmode Hin Hp Hlt name result b'.
  assert (invoke w h env = Some (Return result)) as Hi.
  { unfold invoke. destruct (decide _); [done|]. f_equal.
    rewrite (handle_completes w h env data v d Hin Hp). by apply wait_for_in_time. }
  subst b'. unfold _run_handler. rewrite Hi. fold name.
  destruct result as [r|]; simpl;
    rewrite callback_calls_app, app_nil_r, !lookup_insert_eq; done.
Qed.




(** ** Waiters *)

Lemma dispatch_begin_handlers (w : World) (e : Envelope) (b : Bus) :
  (∀ fid, ¬ pending_waiter b (key_of e) fid) →
  (_dispatch_begin w e b).2 = default [] (_subs b !! event_type e).
Proof.
  intros Hn. unfold _dispatch_begin.
  rewrite check_waiters_miss.
  - simpl. by destruct (default [] _).
  - intros fid [Hw Hf]. apply (Hn fid). by split.
Qed.

(** X13.  A waiter is resolved at most once: after an envelope resolved the
    pending waiter of its key, another envelope with the same key resolves
    nothing, also before the request has taken the result; [_dispatch] hands
    it to the subscribers of its topic like any other envelope. *)
Theorem waiter_is_one_shot (w : World) (e1 e2 : Envelope) (b : Bus) (fid : nat) :
  pending_waiter b (key_of e1) fid →
  key_of e2 = key_of e1 →
  let b1 := (_check_waiters e1 b).2 in
  (_check_waiters e1 b).1 = true ∧
  futures b1 !! fid = Some (Finished e1) ∧
  _check_waiters e2 b1 = (false, b1) ∧
  (_dispatch_begin w e2 b1).2 = default [] (_subs b !! event_type e2) ∧
  futures (_dispatch_begin w e2 b1).1 !! fid = Some (Finished e1).
Proof.
  intros Hp Hk b1. subst b1. rewrite (check_waiters_hit e1 b fid Hp). simpl.
  set (b1 := with_futures _ b).
  assert (∀ f, ¬ pending_waiter b1 (key_of e2) f) as Hn.
  { intros f [Hw Hf]. rewrite Hk in Hw. destruct Hp as [Hw' _].
    simpl in Hw. rewrite Hw' in Hw. injection Hw as <-.
    simpl in Hf. by rewrite lookup_insert_eq in Hf. }
  split_and!.
  - done.
  - by rewrite lookup_insert_eq.
  - by apply check_waiters_miss.
  - by rewrite dispatch_begin_handlers.
  - rewrite dispatch_begin_state, check_waiters_miss.
    + simpl. by rewrite lookup_insert_eq.
    + intros f [Hw Hf]. apply (Hn f). by split.
Qed.

(** X14.  Once [request] has returned, by result or by timeout, an envelope
    with the key of the request is no response any more: it resolves no
    waiter and [_dispatch] hands it to the subscribers of its topic. *)
Theorem late_response_is_dispatched (w w2 : World) (rq : PendingRequest)
    (e : Envelope) (b : Bus) :
  key_of e = rq_key rq →
  let b1 := (request_end w rq b).1 in
  _check_waiters e b1 = (false, b1) ∧
  (_dispatch_begin w2 e b1).2 = default [] (_subs b !! event_type e).
Proof.
  intros Hk b1.
  assert (_waiters b1 !! key_of e = None) as Hgone.
  { subst b1. rewrite Hk. unfold request_end.
    destruct (futures b !! rq_future rq) as [[|r|]|]; simpl; by rewrite lookup_delete_eq. }
  assert (∀ f, ¬ pending_waiter b1 (key_of e) f) as Hn.
  { intros f [Hw _]. by rewrite Hgone in Hw. }
  split; [by apply check_waiters_miss|].
  rewrite dispatch_begin_handlers by done.
  subst b1. unfold request_end. by destruct (futures b !! rq_future rq) as [[|r|]|].
Qed.

Lemma has_colon_waiter_key (event trace : string) :
  has_colon (waiter_key event trace) = true.
Proof.
  unfold waiter_key. induction event as [|c event IH]; simpl; [done|].
  by destruct (Ascii.eqb c _).
Qed.

(** X15.  The key of the waiter table is the text [event:trace]: two pairs
    of an event type and a trace id without a colon in the trace id (as the
    ids the bus makes are) have the same key only when they are the same
    pair; with a colon in a trace id, different pairs can share a key. *)
Theorem waiter_key_unambiguous :
  (∀ event1 trace1 event2 trace2,
     has_colon trace1 = false → has_colon trace2 = false →
     waiter_key event1 trace1 = waiter_key event2 trace2 →
     event1 = event2 ∧ trace1 = trace2) ∧
  waiter_key "a" "b:c" = waiter_key "a:b" "c".
Proof.
  split; [|reflexivity].
  intros event1.
  induction event1 as [|c1 event1 IH]; intros trace1 [|c2 event2] trace2 H1 H2 Hk;
    unfold waiter_key in Hk; cbn in Hk.
  - injection Hk as Hk. by split.
  - exfalso. injection Hk as _ Hk.
    change ("" +:+ trace1) with trace1 in Hk. subst trace1.
    pose proof (has_colon_waiter_key event2 trace2) as Hc.
    unfold waiter_key in Hc. congruence.
  - exfalso. injection Hk as _ Hk.
    change ("" +:+ trace2) with trace2 in Hk. subst trace2.
    pose proof (has_colon_waiter_key event1 trace1) as Hc.
    unfold waiter_key in Hc. congruence.
  - injection Hk as -> Hk. destruct (IH trace1 event2 trace2 H1 H2 Hk) as [-> ->]. done.
Qed.

(** ** stop *)

Lemma resolve_shutdown_keeps_other (ws : string → World) (l : list (string * nat))
    (fs : gmap nat FutureState) (f : nat) :
  fs !! f ≠ Some Pending ∨ f ∉ l.*2 →
  foldl (resolve_shutdown ws) fs l !! f = fs !! f.
Proof.
  revert fs. induction l as [|[k0 f0] l IH]; intros fs Hf; [done|]. simpl.
  assert (resolve_shutdown ws fs (k0, f0) !! f = fs !! f) as Hstep.
  { unfold resolve_shutdown. simpl.
    destruct (fs !! f0) as [[| |]|] eqn:H0; simpl; try done.
    rewrite lookup_insert_ne; [done|]. intros ->.
    destruct Hf as [Hf|Hf]; [done|]. apply Hf. by left. }
  rewrite IH; [done|]. rewrite Hstep.
  destruct Hf as [Hf|Hf]; [by left|]. right. intros Hin. apply Hf. by right.
Qed.

Lemma resolve_shutdown_some_key (ws : string → World) (l : list (string * nat))
    (fs : gmap nat FutureState) (k : string) (f : nat) :
  fs !! f = Some Pending → (k, f) ∈ l →
  ∃ k', (k', f) ∈ l ∧
    foldl (resolve_shutdown ws) fs l !! f = Some (Finished (shutdown_envelope (ws k'))).
Proof.
  revert fs. induction l as [|[k0 f0] l IH]; intros fs Hf Hin.
  - by apply elem_of_nil in Hin.
  - simpl. destruct (decide (f0 = f)) as [->|Hne].
    + exists k0. split; [by left|].
      rewrite resolve_shutdown_keeps_other.
      * unfold resolve_shutdown. simpl. rewrite Hf. simpl. by rewrite lookup_insert_eq.
      * left. unfold resolve_shutdown. simpl. rewrite Hf. simpl.
        by rewrite lookup_insert_eq.
    + apply elem_of_cons in Hin as [[= <- <-]|Hin]; [done|].
      destruct (IH (resolve_shutdown ws fs (k0, f0))) as (k' & Hk' & Hres); [|done|].
      * unfold resolve_shutdown. simpl.
        destruct (fs !! f0) as [[| |]|]; simpl; try done. by rewrite lookup_insert_ne.
      * exists k'. split; [by right | done].
Qed.

(** X16.  The end of [stop] resolves every future of the waiter table that
    is not done with an error envelope of code [shutdown] and event type
    [shutdown.error]; futures that are done, and futures that are not in the
    table, stay as they are; the table is empty afterwards, so no envelope
    resolves a waiter any more; the bus is no longer draining. *)
Theorem stop_resolves_every_waiter (ws : string → World) (b : Bus) :
  let b' := stop_end ws b in
  _waiters b' = ∅ ∧ _draining b' = false ∧ _queue b' = _queue b ∧
  (∀ k f, _waiters b !! k = Some f → futures b !! f = Some Pending →
     ∃ k' r, _waiters b !! k' = Some f ∧ r = shutdown_envelope (ws k') ∧
       futures b' !! f = Some (Finished r) ∧
       (err_code <$> error r) = Some "shutdown" ∧ event_type r = "shutdown.error") ∧
  (∀ f, futures b !! f ≠ Some Pending → futures b' !! f = futures b !! f) ∧
  (∀ f, (∀ k, _waiters b !! k ≠ Some f) → futures b' !! f = futures b !! f) ∧
  (∀ e, _check_waiters e b' = (false, b')).
Proof.
  intros b'. subst b'. simpl. split_and!; try done.
  - intros k f Hw Hf.
    destruct (resolve_shutdown_some_key ws (map_to_list (_waiters b)) (futures b) k f Hf)
      as (k' & Hk' & Hres); [by apply elem_of_map_to_list|].
    exists k', (shutdown_envelope (ws k')).
    apply elem_of_map_to_list in Hk'. done.
  - intros f Hf. apply resolve_shutdown_keeps_other. by left.
  - intros f Hf. apply resolve_shutdown_keeps_other. right.
    intros ([k f'] & -> & Hin)%list_elem_of_fmap. simpl in Hf.
    apply elem_of_map_to_list in Hin. by apply (Hf k).
Qed.

(** ** The loop of start *)

Lemma with_queue_id (b : Bus) (v : option (list Envelope)) :
  _queue b = v → with_queue v b = b.
Proof. intros <-. by destruct b. Qed.

Lemma start_loop_takes_all (q : list Envelope) (b : Bus) :
  _queue b = Some q → _running b || _draining b = true →
  start_loop (length q) b = (q, with_queue (Some []) b, false).
Proof.
  revert b. induction q as [|e q IH]; intros b Hq Hflags; simpl.
  - by rewrite with_queue_id.
  - unfold start_turn. rewrite Hflags, Hq.
    rewrite (IH (with_queue (Some q) b)) by done. done.
Qed.

Lemma start_loop_add (n m : nat) (b : Bus) :
  start_loop (n + m) b
    = let '(spawned, b1, out) := start_loop n b in
      if out then (spawned, b1, true)
      else let '(spawned2, b2, out2) := start_loop m b1 in
           (spawned ++ spawned2, b2, out2).
Proof.
  revert b. induction n as [|n IH]; intros b; simpl.
  - by destruct (start_loop m b) as [[sp b2] out].
  - destruct (start_turn b) as [e b1|b1|b1]; [|apply IH|done].
    rewrite IH. destruct (start_loop n b1) as [[sp b2] [|]]; [done|].
    by destruct (start_loop m b2) as [[sp2 b3] out].
Qed.

Lemma start_loop_idles (n : nat) (b : Bus) :
  _queue b = Some [] → _running b = true → _draining b = false →
  start_loop n b = ([], b, false).
Proof.
  intros Hq Hr Hd. induction n as [|n IH]; [done|]. simpl.
  unfold start_turn. by rewrite Hr, Hd, Hq.
Qed.

Lemma start_loop_leaves (n : nat) (b : Bus) :
  (_queue b = Some [] ∧ _draining b = true) ∨ (_running b = false ∧ _draining b = false) →
  start_loop (S n) b = ([], b, true).
Proof.
  simpl. unfold start_turn. intros [[-> ->]|[-> ->]]; [|done].
  by rewrite orb_true_r.
Qed.

Lemma start_loop_drains (q : list Envelope) (b : Bus) (n : nat) :
  _queue b = Some q → _draining b = true → (length q < n)%nat →
  start_loop n b = (q, with_queue (Some []) b, true).
Proof.
  intros Hq Hd Hn. replace n with (length q + S (n - S (length q)))%nat by lia.
  rewrite start_loop_add, start_loop_takes_all by (by rewrite ?Hd, ?orb_true_r).
  rewrite start_loop_leaves by (by left). by rewrite app_nil_r.
Qed.

(** X17.  The loop of [start], while no other task runs, takes the queued
    envelopes in the order of the queue, one per turn.  A running bus then
    idles on the empty queue and never leaves the loop; a draining bus leaves
    it once the queue is empty; a bus that is neither running nor draining
    leaves it at the next turn and takes nothing, whatever is queued. *)
Theorem start_loop_is_fifo (b : Bus) (q : list Envelope) :
  _queue b = Some q →
  let emptied := with_queue (Some []) b in
  (_running b = true → _draining b = false →
     ∀ n, (length q ≤ n)%nat → start_loop n b = (q, emptied, false)) ∧
  (_draining b = true →
     ∀ n, (length q < n)%nat → start_loop n b = (q, emptied, true)) ∧
  (_running b = false → _draining b = false →
     ∀ n, (0 < n)%nat → start_loop n b = ([], b, true)).
Proof.
  intros Hq emptied. split_and!.
  - intros Hr Hd n Hn. replace n with (length q + (n - length q))%nat by lia.
    rewrite start_loop_add, start_loop_takes_all by (by rewrite ?Hr).
    rewrite start_loop_idles by done. by rewrite app_nil_r.
  - intros Hd n Hn. by apply start_loop_drains.
  - intros Hr Hd n Hn. destruct n as [|n]; [lia|]. apply start_loop_leaves. by right.
Qed.


(** ** Scheduled tasks *)

(** X19.  On a running bus whose queue exists, every turn of a scheduled
    task puts one new envelope at the end of the queue: it has the event
    type and the source of the task and a fresh trace id; nothing else of the
    bus changes.  On a bus that is not running a turn does nothing. *)
Theorem scheduled_turns_publish (ws : list World) (task : ScheduledTask) (b : Bus) :
  (∀ q, _running b = true → _queue b = Some q →
     scheduled_turns ws task b
       = with_queue
           (Some (q ++ ((λ w, create w (st_event_type task) (st_data task)
                                (st_source task) None "" None) <$> ws))) b) ∧
  (_running b = false → scheduled_turns ws task b = b) ∧
  (∀ w, let e := create w (st_event_type task) (st_data task) (st_source task)
                   None "" None in
        event_type e = st_event_type task ∧ trace_id e = uuid4_hex16 w ∧
        ctx_source (ctx e) = st_source task).
Proof.
  split_and!.
  - revert b. induction ws as [|w ws IH]; intros b q Hr Hq.
    + simpl. rewrite app_nil_r. by rewrite with_queue_id.
    + unfold scheduled_turns in *. simpl. unfold scheduled_turn at 2.
      rewrite Hr. simpl. rewrite (queue_put_started _ b q Hq).
      rewrite (IH _ (q ++ [create w (st_event_type task) (st_data task)
                             (st_source task) None "" None])) by done.
      simpl. by rewrite <- app_assoc.
  - intros Hr. unfold scheduled_turns. induction ws as [|w ws IH]; [done|].
    simpl. unfold scheduled_turn at 2. by rewrite Hr.
  - done.
Qed.

(** ** Domain.setup *)

Lemma prefix_append (p s : string) : String.prefix p (p +:+ s) = true.
Proof.
  induction p as [|c p IH]; simpl; [by destruct s|].
  destruct (Ascii.ascii_dec c c); [exact IH | done].
Qed.

Lemma namespaced_cases (ns topic : string) :
  (topic = "" ∧ namespaced ns topic = "") ∨
  (topic ≠ "" ∧ startswith topic (ns +:+ ".") = true ∧ namespaced ns topic = topic) ∨
  (topic ≠ "" ∧ startswith topic (ns +:+ ".") = false ∧
   namespaced ns topic = ns +:+ "." +:+ topic).
Proof.
  unfold namespaced. destruct (decide (topic = "")) as [->|Hne].
  - left. by rewrite bool_decide_eq_true_2.
  - right. rewrite bool_decide_eq_false_2 by done. simpl.
    destruct (startswith topic (ns +:+ ".")); [by left | by right].
Qed.

Lemma append_assoc (a b c : string) : (a +:+ b) +:+ c = a +:+ b +:+ c.
Proof.
  induction a as [|x a IH]; [done|].
  change (String x ((a +:+ b) +:+ c) = String x (a +:+ b +:+ c)). by rewrite IH.
Qed.

Lemma namespaced_startswith (ns topic : string) :
  topic ≠ "" → startswith (namespaced ns topic) (ns +:+ ".") = true.
Proof.
  intros Hne. destruct (namespaced_cases ns topic) as [[? _]|[(_ & Hs & ->)|(_ & _ & ->)]];
    [done|done|].
  unfold startswith. rewrite <- append_assoc. apply prefix_append.
Qed.

Lemma namespaced_nonempty (ns topic : string) : topic ≠ "" → namespaced ns topic ≠ "".
Proof.
  intros Hne. destruct (namespaced_cases ns topic) as [[? _]|[(_ & _ & ->)|(_ & _ & ->)]];
    [done|done|].
  by destruct ns.
Qed.

Lemma namespaced_idempotent (ns topic : string) :
  namespaced ns (namespaced ns topic) = namespaced ns topic.
Proof.
  destruct (decide (topic = "")) as [->|Hne]; [done|].
  destruct (namespaced_cases ns (namespaced ns topic))
    as [[Habs _]|[(_ & _ & ->)|(_ & Hs & _)]]; [|done|].
  - by apply namespaced_nonempty in Habs.
  - by rewrite namespaced_startswith in Hs.
Qed.

Lemma Domain_setup_is_register_all (ns : string) (hs : list Handler) (b : Bus) :
  Domain_setup ns hs b = register_all (setup_handler ns <$> hs) b.
Proof.
  unfold Domain_setup, register_all. revert b.
  induction hs as [|h hs IH]; intros b; [done|]. simpl. apply IH.
Qed.

Lemma register_all_lookup (hs : list Handler) (b : Bus) (t : string) :
  default [] (_subs (register_all hs b) !! t)
    = default [] (_subs b !! t)
        ++ (with_bus_timeout (_default_timeout b) <$> filter (λ h, subscribes_to h = t) hs).
Proof.
  induction hs as [|h hs IH] using rev_ind.
  { simpl. by rewrite app_nil_r. }
  rewrite register_all_snoc, register_stores. simpl.
  destruct (register_all_frame hs b) as (-> & _).
  rewrite filter_app, fmap_app.
  destruct (decide (subscribes_to h = t)) as [Heq|Hne].
  - rewrite filter_cons_True by done. rewrite filter_nil.
    rewrite Heq, lookup_insert_eq. simpl. rewrite IH. by rewrite <- app_assoc.
  - rewrite filter_cons_False by done. rewrite filter_nil.
    rewrite lookup_insert_ne by done. simpl. by rewrite app_nil_r.
Qed.

(** X20.  [Domain.setup] with a namespace puts the namespace and a dot in
    front of the topics of a handler, except in front of an empty topic and
    of a topic that already starts with them: every non-empty topic then
    starts with the namespace and a dot, and setting a handler up twice
    changes nothing more.  The handlers are registered under the topics so
    made, in the order of the domain; without a namespace they are
    registered as they are. *)
Theorem domain_setup_namespaces (ns : string) (hs : list Handler) (b : Bus) (t : string) :
  (∀ topic, namespaced ns (namespaced ns topic) = namespaced ns topic) ∧
  (∀ topic, topic ≠ "" → startswith (namespaced ns topic) (ns +:+ ".") = true) ∧
  namespaced ns "" = "" ∧
  (∀ h, setup_handler ns (setup_handler ns h) = setup_handler ns h) ∧
  (ns ≠ "" →
     default [] (_subs (Domain_setup ns hs b) !! t)
       = default [] (_subs b !! t)
           ++ (with_bus_timeout (_default_timeout b) <$>
                 (setup_handler ns <$>
                    filter (λ h, namespaced ns (subscribes_to h) = t) hs))) ∧
  (ns = "" → Domain_setup ns hs b = register_all hs b).
Proof.
  split_and!.
  - apply namespaced_idempotent.
  - apply namespaced_startswith.
  - done.
  - intros h. unfold setup_handler. destruct (decide (ns = "")); [done|].
    simpl. by rewrite !namespaced_idempotent.
  - intros Hns. rewrite Domain_setup_is_register_all, register_all_lookup.
    f_equal. f_equal. induction hs as [|h hs IH]; [done|]. rewrite fmap_cons.
    assert (subscribes_to (setup_handler ns h) = namespaced ns (subscribes_to h)) as Hs.
    { unfold setup_handler. by destruct (decide (ns = "")). }
    destruct (decide (namespaced ns (subscribes_to h) = t)) as [Heq|Hne].
    + rewrite !filter_cons_True by (by rewrite ?Hs). rewrite fmap_cons. by rewrite IH.
    + rewrite !filter_cons_False by (by rewrite ?Hs). done.
  - intros ->. rewrite Domain_setup_is_register_all. f_equal.
    induction hs as [|h hs IH]; [done|]. rewrite fmap_cons. by rewrite IH.
Qed.

End MoreProperties.

(** ** The websocket transport *)

Section TransportProperties.
Context `{RT : PyRuntime}.
Variable Json : Type.
Variable json_dumps : Json → list byte.
Variable json_loads : list byte → Outcome Json.
Variable empty_object : Json.

Lemma derived_from_error_extra (e0 e : Envelope) :
  ctx_extra (ctx e0) = ∅ → derived e0 e → ctx_extra (ctx e) = ∅.
Proof. intros H0. induction 1 as [|w e t d s _ IH|]; [done|exact IH|done]. Qed.

Lemma forward_extra (w : World) (e : Envelope) (t : string) (d : Struct) (s : string) :
  ctx_extra (ctx (forward w e t d s)) = ctx_extra (ctx e).
Proof. done. Qed.

Lemma ws_envelope_sid (w : World) (sid event : string) (data : WsEvent Json) :
  ctx_extra (ctx (ws_envelope json_dumps empty_object w sid event data)) !! "_ws_sid"
    = Some sid.
Proof. simpl. by rewrite lookup_insert_eq. Qed.

(** X21.  The handler [event] of the transport does exactly one of two
    things and never both: it puts one envelope at the end of the queue of
    the bus and emits nothing, when the event type is given and not empty and
    the bus was started; or it emits one error to the sender and leaves the
    bus as it was, when the event type is missing or empty or the bus was not
    started.  It never changes the table of sessions.  The envelope has the
    event type of the message, the trace id of the message when that is given
    and not empty and a fresh one otherwise, the session id under [_ws_sid],
    and no error. *)
Theorem ws_event_publishes_or_reports (w : World) (sid : string) (data : WsEvent Json)
    (self : SocketTransport Json) (bus : Bus) :
  let result := ws_event json_dumps empty_object w sid data self bus in
  _sid_map result.1 = _sid_map self ∧
  ((∃ event q, ws_event_type data = Some event ∧ event ≠ "" ∧ _queue bus = Some q ∧
      result.1 = self ∧
      result.2 = with_queue
                   (Some (q ++ [ws_envelope json_dumps empty_object w sid event data])) bus)
   ∨ (∃ text, (ws_event_type data = None ∨ ws_event_type data = Some "" ∨
               _queue bus = None) ∧
        emitted result.1 = emitted self ++ [EmitError sid text] ∧ result.2 = bus)) ∧
  (∀ event,
     let e := ws_envelope json_dumps empty_object w sid event data in
     event_type e = event ∧ is_error e = false ∧
     ctx_extra (ctx e) !! "_ws_sid" = Some sid ∧
     trace_id e = opt_str_or (ws_trace_id data) (uuid4_hex16 w) ∧
     (uuid4_hex16 w ≠ "" → trace_id e ≠ "")).
Proof.
  intros result. subst result. split_and!.
  - unfold ws_event. destruct (ws_event_type data) as [event|]; [|done].
    destruct (decide (event = "")); [done|].
    by destruct (publish _ _ _ _ _ _ _ bus).
  - unfold ws_event. destruct (ws_event_type data) as [event|] eqn:He.
    + destruct (decide (event = "")) as [->|Hne].
      * right. eexists. split_and!; [by right; left|done|done].
      * unfold publish, queue_put. destruct (_queue bus) as [q|] eqn:Hq.
        -- left. by exists event, q.
        -- right. eexists. split_and!; [by right; right|done|done].
    + right. eexists. split_and!; [by left|done|done].
  - intros event e. subst e. split_and!; [done|done|apply ws_envelope_sid|done|].
    intros Hw. by apply opt_str_or_nonempty.
Qed.

(** X22.  [reply_to_sender] for an envelope a handler forwarded from an
    envelope of the handler [event], when the session id is not empty and the
    payload decodes: while the session is connected, one dict goes to that
    session, with the event type, the trace id and the decoded payload of the
    reply and no error, and the result is [True]; when the session is not
    connected, as after [disconnect], nothing is emitted and the result is
    [False]. *)
Theorem reply_reaches_connected_sender (w w2 : World) (sid event : string)
    (data : WsEvent Json) (t : string) (d : Struct) (s : string) (body : Json)
    (self : SocketTransport Json) :
  sid ≠ "" →
  json_loads (json_encode d) = Return body →
  let e := forward w2 (ws_envelope json_dumps empty_object w sid event data) t d s in
  let sent (tr : SocketTransport Json) :=
    (with_emitted (emitted tr ++ [EmitEnvelope (Some sid) t (trace_id e) body None]) tr,
     Return true) in
  (sid ∈ _sid_map self → reply_to_sender json_loads e self = sent self) ∧
  (sid ∉ _sid_map self → reply_to_sender json_loads e self = (self, Return false)) ∧
  reply_to_sender json_loads e (ws_connect sid self) = sent (ws_connect sid self) ∧
  reply_to_sender json_loads e (ws_disconnect sid self)
    = (ws_disconnect sid self, Return false).
Proof.
  intros Hsid Hbody e sent.
  assert (∀ tr : SocketTransport Json, sid ∈ _sid_map tr →
            reply_to_sender json_loads e tr = sent tr) as Hin.
  { intros tr Htr. unfold reply_to_sender.
    subst e. rewrite forward_extra, ws_envelope_sid.
    rewrite bool_decide_eq_false_2, bool_decide_eq_true_2 by done. simpl.
    unfold emit_envelope. simpl. rewrite Hbody.
    by destruct (decide (sid = "")). }
  assert (∀ tr : SocketTransport Json, sid ∉ _sid_map tr →
            reply_to_sender json_loads e tr = (tr, Return false)) as Hout.
  { intros tr Htr. unfold reply_to_sender.
    subst e. rewrite forward_extra, ws_envelope_sid.
    rewrite (bool_decide_eq_false_2 (sid ∈ _)) by done.
    by rewrite andb_false_r. }
  split_and!; [apply Hin|apply Hout| |].
  - apply Hin. simpl. set_solver.
  - apply Hout. simpl. rewrite elem_of_difference, elem_of_singleton. by intros [_ ?].
Qed.

(** X23.  An envelope made by [error_from], and every envelope derived from
    it by [forward] and [error_from], has an empty [extra]: the session id of
    the websocket sender is lost, and [reply_to_sender] sends nothing and
    returns [False] for it, whatever sessions are connected. *)
Theorem error_reply_is_never_sent (w : World) (original : Envelope)
    (message code source : string) (details : option (gmap string string))
    (e : Envelope) (self : SocketTransport Json) :
  derived (error_from w original message code source details) e →
  ctx_extra (ctx e) = ∅ ∧
  reply_to_sender json_loads e self = (self, Return false).
Proof.
  intros Hd. apply derived_from_error_extra in Hd; [|done].
  split; [done|]. unfold reply_to_sender. by rewrite Hd, lookup_empty.
Qed.

End TransportProperties.

(** ** The properties above on the sample runtime *)

(** X1 on a created envelope that is forwarded and then turned into an
    error: the fresh trace id and the user id are still there. *)
Lemma created_chain_keeps_trace_id_witness :
  trace_id Fixtures.chained = "0123456789abcdef" ∧
  ctx_user_id (ctx Fixtures.chained) = "u1".
Proof.
  destruct (created_chain_keeps_trace_id Sample.world "a.b" (Sample.struct_of "{}")
              "src" None "u1" None Fixtures.chained
              ltac:(vm_compute; discriminate)
              ltac:(apply derived_error_from, derived_forward, derived_self))
    as (_ & Ht & _ & Hu).
  split; [exact Ht | exact Hu].
Defined.

(** X2 with the decoder of the handler of the test suite. *)
Lemma payload_round_trip_witness :
  decode (create Sample.world "test.event" (Sample.struct_of "[1, 2]") "" None "" None)
    Fixtures.text_type = Return (Sample.struct_of "[1, 2]") ∧
  handler_input Sample.echo
    (create Sample.world "test.event" (Sample.struct_of "[1, 2]") "" None "" None)
    = Return (VStruct (Sample.struct_of "[1, 2]")).
Proof.
  pose proof (payload_round_trip Sample.world Sample.world "test.event"
                (Sample.struct_of "[1, 2]") "" None "" None Fixtures.text_type
                Sample.echo "boom" "x" "H" ltac:(reflexivity)) as H.
  cbv zeta in H. destruct H as (Hd & Hh & _).
  split; [exact Hd | apply Hh; reflexivity].
Defined.

(** X4 on the log of three events: the last entry of topic [a]. *)
Lemma recent_returns_last_matching_witness :
  length (recent 1 (Some "a") None Fixtures.history) = 1%nat ∧
  ∀ e, e ∈ recent 1 (Some "a") None Fixtures.history → le_event_type e = "a".
Proof.
  pose proof (recent_returns_last_matching 1 (Some "a") None Fixtures.history
                ltac:(lia)) as H.
  cbv zeta in H. destruct H as (_ & Hlen & _ & _ & Hev & _).
  split; [etrans; [exact Hlen | reflexivity]|].
  intros e He. apply (Hev e "a" He eq_refl). discriminate.
Defined.

(** X5 on the log of three events: [recent(-1)] leaves the first entry out
    and [recent(0)] returns the three. *)
Lemma recent_nonpositive_drops_front_witness :
  length (recent (-1) None None Fixtures.history) = 2%nat ∧
  length (recent 0 None None Fixtures.history) = 3%nat.
Proof.
  pose proof (recent_nonpositive_drops_front (-1) None None Fixtures.history
                ltac:(lia)) as H1.
  pose proof (recent_nonpositive_drops_front 0 None None Fixtures.history
                ltac:(lia)) as H0.
  cbv zeta in H1, H0. destruct H1 as [H1 _]. destruct H0 as [_ H0].
  split; (etrans; [first [exact (f_equal length H1) | exact (f_equal length (H0 eq_refl))]
                  | reflexivity]).
Defined.

(** X10 on the started bus of the test suite: the one subscriber of
    [test.event] is invoked once. *)
Lemma dispatch_fans_out_witness :
  handler_calls
    (effects (_dispatch Sample.world Sample.tick (Sample.envelope_of "test.event" "t1")
                Sample.started).1)
    = [("MockHandler", Sample.envelope_of "test.event" "t1")] ∧
  (_dispatch Sample.world Sample.tick (Sample.envelope_of "test.event" "t1")
     Sample.started).2 = Some (Return ()).
Proof.
  pose proof (dispatch_fans_out Sample.world Sample.tick
                (Sample.envelope_of "test.event" "t1") Sample.started
                [Sample.echo] []
                ltac:(intros fid [Hw _]; vm_compute in Hw; discriminate)
                ltac:(vm_compute; reflexivity)
                ltac:(repeat constructor; discriminate)
                ltac:(reflexivity)) as H.
  cbv zeta in H. destruct H as (_ & Hr & Hc & _).
  split; [etrans; [exact Hc | reflexivity] | exact Hr].
Defined.

(** X11 at the handler of the test suite. *)
Lemma run_handler_success_witness :
  processed (metrics (_run_handler Sample.world (Sample.fl (1 # 10)) Sample.echo
                        (Sample.envelope_of "test.event" "t1") Sample.started).1)
    !! "MockHandler" = Some 1 ∧
  errors (metrics (_run_handler Sample.world (Sample.fl (1 # 10)) Sample.echo
                     (Sample.envelope_of "test.event" "t1") Sample.started).1) = ∅.
Proof.
  pose proof (run_handler_success Sample.world (Sample.fl (1 # 10)) Sample.echo
                (Sample.envelope_of "test.event" "t1") Sample.started
                (VStruct (Sample.struct_of "[1, 2]"))
                (VStruct (Sample.struct_of "echo:[1, 2]")) (Sample.fl (1 # 1000))
                ltac:(vm_compute; discriminate) ltac:(reflexivity) ltac:(reflexivity)
                ltac:(reflexivity)) as H.
  cbv zeta in H. destruct H as (_ & Hp & _ & He & _).
  split; (etrans; [first [exact Hp | exact He] | reflexivity]).
Defined.


(** X13 on the bus with a waiting request: the answer resolves it once. *)
Lemma waiter_is_one_shot_witness :
  pending_waiter Sample.waiting (key_of Sample.answer) 0 ∧
  (_check_waiters Sample.answer Sample.waiting).1 = true ∧
  (_check_waiters Sample.answer (_check_waiters Sample.answer Sample.waiting).2).1 = false.
Proof.
  assert (Hp : pending_waiter Sample.waiting (key_of Sample.answer) 0).
  { split; vm_compute; reflexivity. }
  pose proof (waiter_is_one_shot Sample.world Sample.answer Sample.answer
                Sample.waiting 0%nat Hp eq_refl) as H.
  cbv zeta in H. destruct H as (H1 & _ & H2 & _).
  split; [exact Hp|]. split; [exact H1 | exact (f_equal fst H2)].
Defined.

(** X14 on the started bus of the test suite: after the request timed out,
    the answer resolves nothing. *)
Lemma late_response_is_dispatched_witness :
  ∃ b1 rq,
    request_begin Sample.world "test.event" (Sample.struct_of "[1, 2]")
      (Some "test.result") "" None "" None Sample.started = (b1, Return rq) ∧
    (_check_waiters Sample.answer (request_end Sample.world rq b1).1).1 = false.
Proof.
  eexists _, _. split; [reflexivity|].
  match goal with
  | |- (_check_waiters _ (request_end _ ?rq ?b1).1).1 = false =>
      exact (f_equal fst
               (proj1 (late_response_is_dispatched Sample.world Sample.world rq
                         Sample.answer b1 eq_refl)))
  end.
Defined.

(** X17 on a running bus with two queued envelopes. *)
Lemma start_loop_is_fifo_witness :
  start_loop 5 Fixtures.loaded
    = (Fixtures.backlog, with_queue (Some []) Fixtures.loaded, false).
Proof.
  pose proof (start_loop_is_fifo Fixtures.loaded Fixtures.backlog eq_refl) as H.
  cbv zeta in H. destruct H as (H & _).
  apply H; [reflexivity | reflexivity | simpl; lia].
Defined.

(** X22 for the reply to a message of the connected session [s1]. *)
Lemma reply_reaches_connected_sender_witness :
  reply_to_sender Fixtures.json_loads Fixtures.reply Fixtures.transport
    = (with_emitted
         [EmitEnvelope (Some "s1") "chat.reply" "0123456789abcdef" "[1, 2]" None]
         Fixtures.transport,
       Return true).
Proof.
  pose proof (reply_reaches_connected_sender string Fixtures.json_dumps
                Fixtures.json_loads "{}" Sample.world Sample.world "s1" "chat.send"
                Fixtures.message "chat.reply" (Sample.struct_of "[1, 2]") "ChatHandler"
                "[1, 2]" Fixtures.transport
                ltac:(discriminate) ltac:(reflexivity)) as H.
  cbv zeta in H. destruct H as (H & _).
  apply H. by apply elem_of_singleton.
Defined.

(** X23 for the error envelope of that reply, forwarded once: nothing goes
    to the connected session [s1]. *)
Lemma error_reply_is_never_sent_witness :
  reply_to_sender Fixtures.json_loads Fixtures.failure Fixtures.transport
    = (Fixtures.transport, Return false).
Proof.
  destruct (error_reply_is_never_sent string Fixtures.json_loads Sample.world
              Fixtures.reply "boom" "handler_error" "ChatHandler" None Fixtures.failure
              Fixtures.transport
              ltac:(apply derived_forward, derived_self)) as [_ H].
  exact H.
Defined.
